(** * Roster extraction from council minutes: a model of [main.py]

    The program reads an HTML page of council minutes, guesses its character
    encoding with two detectors ([det_encoding]) and extracts the list of
    attending members ([parse], [remove_number_honorific],
    [replace_empty_line]).

    Python strings are sequences of Unicode code points; they are modelled as
    lists of code points ([Z]).  The regular expressions of the source are
    kept as syntax trees and run by a backtracking matcher that follows the
    priorities of Python's [re] module (leftmost match, first alternative
    first, greedy repetition). *)

From Stdlib Require Import String Ascii DecimalString.
From Stdlib Require Import ZArith List Bool Lia.
Import ListNotations.
Open Scope Z_scope.

Set Implicit Arguments.

(** ** Strings *)

Definition char : Type := Z.
Definition str : Type := list char.

(** Literals are written as in the source and decoded from UTF-8. *)
Fixpoint utf8_go (need : nat) (acc : Z) (bs : list Z) : str :=
  match bs with
  | [] => []
  | b :: bs' =>
      match need with
      | O =>
          if b <? 128 then b :: utf8_go 0 0 bs'
          else if b <? 224 then utf8_go 1 (Z.land b 31) bs'
          else if b <? 240 then utf8_go 2 (Z.land b 15) bs'
          else utf8_go 3 (Z.land b 7) bs'
      | S n =>
          let acc' := acc * 64 + Z.land b 63 in
          match n with
          | O => acc' :: utf8_go 0 0 bs'
          | S _ => utf8_go n acc' bs'
          end
      end
  end.

Definition U (s : String.string) : str :=
  utf8_go 0 0 (map (fun a => Z.of_N (Ascii.N_of_ascii a))
                   (String.list_ascii_of_string s)).
Arguments U s%_string.

Definition LF : char := 10.
Definition CR : char := 13.
Definition SP : char := 32.                                  (* ' ' *)
Definition LT : char := 60.                                  (* '<' *)
Definition GT : char := 62.                                  (* '>' *)
Definition ZSP : char := Eval vm_compute in hd 0 (U "　").   (* U+3000 *)
Definition BAN : char := Eval vm_compute in hd 0 (U "番").   (* U+756A *)

Fixpoint str_eqb (a b : str) : bool :=
  match a, b with
  | [], [] => true
  | x :: a', y :: b' => (x =? y) && str_eqb a' b'
  | _, _ => false
  end.

(** [s.startswith(p)] *)
Fixpoint startswith (s p : str) : bool :=
  match p, s with
  | [], _ => true
  | x :: p', y :: s' => (y =? x) && startswith s' p'
  | _ :: _, [] => false
  end.

(** [s.endswith(p)] *)
Definition endswith (s p : str) : bool :=
  (length p <=? length s)%nat &&
  str_eqb (skipn (length s - length p) s) p.

(** Python slice bounds: a negative index counts from the end, and every
    index is clamped to the string. *)
Definition clamp (len : nat) (i : Z) : nat :=
  if i <? 0 then Z.to_nat (Z.max 0 (Z.of_nat len + i))
  else Nat.min (Z.to_nat i) len.

(** [s[i:j]] *)
Definition slice (i j : Z) (s : str) : str :=
  let a := clamp (length s) i in
  let b := clamp (length s) j in
  firstn (b - a) (skipn a s).

(** [s[i:]] *)
Definition slice_from (i : Z) (s : str) : str :=
  skipn (clamp (length s) i) s.

(** [s[:j]] *)
Definition slice_to (j : Z) (s : str) : str :=
  firstn (clamp (length s) j) s.

(** [s.replace(old, new)] for a non-empty [old]: occurrences are taken from
    left to right and do not overlap.  [skip] counts the characters of the
    occurrence just replaced that are still to be passed over. *)
Fixpoint replace_go (old new : str) (skip : nat) (s : str) : str :=
  match s with
  | [] => []
  | c :: s' =>
      match skip with
      | S k => replace_go old new k s'
      | O =>
          if startswith s old
          then new ++ replace_go old new (length old - 1) s'
          else c :: replace_go old new 0 s'
      end
  end.

Definition replace (old new s : str) : str := replace_go old new 0 s.

(** [c in s], [s.count(c)], [s.rfind(c)] and [s.split(c)] for a
    one-character string [c], the only way the source calls them. *)
Definition contains (c : char) (s : str) : bool := existsb (Z.eqb c) s.

Definition count (c : char) (s : str) : nat :=
  length (filter (Z.eqb c) s).

Fixpoint rfind (c : char) (s : str) : Z :=
  match s with
  | [] => -1
  | x :: s' =>
      let r := rfind c s' in
      if 0 <=? r then r + 1 else if x =? c then 0 else -1
  end.

Fixpoint split (c : char) (s : str) : list str :=
  match s with
  | [] => [[]]
  | x :: s' =>
      if x =? c then [] :: split c s'
      else match split c s' with
           | [] => [[x]]
           | l :: ls => (x :: l) :: ls
           end
  end.

(** ['%d' % n] for a count. *)
Definition str_of_nat (n : nat) : str :=
  U (DecimalString.NilEmpty.string_of_uint (Nat.to_uint n)).

(** [s.lower()] on encoding labels, which are ASCII. *)
Definition lower_char (c : char) : char :=
  if (65 <=? c) && (c <=? 90) then c + 32 else c.

Definition lower (s : str) : str := map lower_char s.

(** ** Regular expressions *)

Inductive regex : Type :=
| Eps                                   (* the empty pattern *)
| Lit (c : char)                        (* one literal character *)
| Class (ranges : list (char * char))   (* [a-bc-d...] *)
| Dot                                   (* any character but a line feed *)
| Cat (r1 r2 : regex)
| Alt (r1 r2 : regex)                   (* r1|r2, r1 tried first *)
| Star (r : regex).                     (* r*, greedy *)

Definition Plus (r : regex) : regex := Cat r (Star r).        (* r+ *)

Fixpoint AtLeast (n : nat) (r : regex) : regex :=             (* r{n,} *)
  match n with
  | O => Star r
  | S k => Cat r (AtLeast k r)
  end.

Fixpoint Word (w : str) : regex :=                            (* literal text *)
  match w with
  | [] => Eps
  | c :: w' => Cat (Lit c) (Word w')
  end.

Definition in_class (ranges : list (char * char)) (c : char) : bool :=
  existsb (fun lh => (fst lh <=? c) && (c <=? snd lh)) ranges.

(** [m r s k]: match [r] at the head of [s] and hand the rest of the string
    to the continuation [k]; when [k] refuses, the next way of matching [r]
    is tried, in the order of a backtracking matcher. *)
Fixpoint m {A : Type} (r : regex) (s : str) (k : str -> option A) : option A :=
  match r with
  | Eps => k s
  | Lit c =>
      match s with
      | x :: s' => if x =? c then k s' else None
      | [] => None
      end
  | Class ranges =>
      match s with
      | x :: s' => if in_class ranges x then k s' else None
      | [] => None
      end
  | Dot =>
      match s with
      | x :: s' => if x =? LF then None else k s'
      | [] => None
      end
  | Cat r1 r2 => m r1 s (fun s' => m r2 s' k)
  | Alt r1 r2 =>
      match m r1 s k with
      | Some a => Some a
      | None => m r2 s k
      end
  | Star r1 =>
      (fix loop (fuel : nat) (s : str) : option A :=
         match fuel with
         | O => k s
         | S fuel' =>
             match m r1 s (fun s' => if (length s' <? length s)%nat
                                     then loop fuel' s' else None) with
             | Some a => Some a
             | None => k s
             end
         end) (length s) s
  end.

(** The rest of the string after the preferred match at its head. *)
Definition match_here (r : regex) (s : str) : option str := m r s (@Some str).

(** [re.search(r, s)]: [(start, end)] of the leftmost match. *)
Fixpoint search_from (r : regex) (i : Z) (s : str) : option (Z * Z) :=
  match match_here r s with
  | Some rest => Some (i, i + Z.of_nat (length s - length rest))
  | None =>
      match s with
      | [] => None
      | _ :: s' => search_from r (i + 1) s'
      end
  end.

Definition re_search (r : regex) (s : str) : option (Z * Z) := search_from r 0 s.

(** [re.fullmatch(r, s)] as a truth value. *)
Definition re_fullmatch (r : regex) (s : str) : bool :=
  match m r s (fun rest => match rest with [] => Some tt | _ :: _ => None end) with
  | Some _ => true
  | None => false
  end.

(** [re.sub(r, repl, s)] for a replacement without group references. *)
Fixpoint sub_go (r : regex) (repl : str) (skip : nat) (s : str) : str :=
  match s with
  | [] =>
      match skip, match_here r [] with
      | O, Some _ => repl
      | _, _ => []
      end
  | c :: s' =>
      match skip with
      | S k => sub_go r repl k s'
      | O =>
          match match_here r s with
          | Some rest =>
              match (length s - length rest)%nat with
              | O => repl ++ c :: sub_go r repl 0 s'
              | S k => repl ++ sub_go r repl k s'
              end
          | None => c :: sub_go r repl 0 s'
          end
      end
  end.

Definition re_sub (r : regex) (repl s : str) : str := sub_go r repl 0 s.

(** ** Errors and the diagnostic channel *)

Inductive exn : Type :=
| AttributeError              (* a method called on [None] *)
| ValueError (args : list str).

(** A computation writes lines to [sys.stderr] and then returns a value or
    raises. *)
Definition M (A : Type) : Type := (list str * (exn + A))%type.

Definition ret {A : Type} (a : A) : M A := ([], inr a).
Definition raise {A : Type} (e : exn) : M A := ([], inl e).
Definition write (line : str) : M unit := ([line], inr tt).

Definition bind {A B : Type} (c : M A) (f : A -> M B) : M B :=
  match c with
  | (out, inl e) => (out, inl e)
  | (out, inr a) => let (out', r) := f a in (out ++ out', r)
  end.

Notation "x <- c ;; k" := (bind c (fun x => k))
  (at level 61, c at next level, right associativity).
Notation "c ;; k" := (bind c (fun _ => k))
  (at level 61, right associativity).

Definition lift {A : Type} (r : exn + A) : M A := ([], r).

Fixpoint mapM {A B : Type} (f : A -> M B) (l : list A) : M (list B) :=
  match l with
  | [] => ret []
  | a :: l' => b <- f a ;; bs <- mapM f l' ;; ret (b :: bs)
  end.

(** ** The program *)

Module Main.

(** The pattern of line 19. *)
Definition re_blank : regex := AtLeast 2 (Lit LF).            (* \n{2,} *)

(** [replace_empty_line], lines 10-20. *)
Definition replace_empty_line (lines : str) : str :=
  let lines := replace [CR; LF] [LF] lines in
  let lines := re_sub re_blank [LF] lines in
  lines.

(** Modelled from the spec: [mojimoji.zen_to_han] is a library function
    outside the sources; the spec has it convert full-width digits to
    half-width ones.  Other characters are left as they are here; the one
    call passes a match of [[0-9|０-９]+] (see [number_chars]). *)
Definition zen_to_han_char (c : char) : char :=
  if (65296 <=? c) && (c <=? 65305) then c - 65248 else c.

Definition zen_to_han (s : str) : str := map zen_to_han_char s.

(** The record built at line 37. *)
Record member : Type := { number : str; name : str }.

(** The pattern of line 28. *)
Definition re_number : regex :=                               (* [0-9|０-９]+番 *)
  Eval vm_compute in
  Cat (Plus (Class [(hd 0 (U "0"), hd 0 (U "9")); (hd 0 (U "|"), hd 0 (U "|"));
                    (hd 0 (U "０"), hd 0 (U "９"))]))
      (Lit BAN).

(** The suffixes of lines 32 and 34. *)
Definition giin : str := Eval vm_compute in U "議員".
Definition san : str := Eval vm_compute in U "さん".
Definition kun : str := Eval vm_compute in U "君".

(** [remove_number_honorific], lines 23-37. *)
Definition remove_number_honorific (person_string : str) : exn + member :=
  match re_search re_number person_string with
  | None => inl AttributeError                 (* re_res.start() on None *)
  | Some (st, en) =>
      let number := zen_to_han (slice st (en - 1) person_string) in
      let name := slice_from en person_string in
      let name :=
        if endswith name giin || endswith name san then slice_to (-2) name
        else if endswith name kun then slice_to (-1) name
        else name in
      inr {| number := number; name := name |}
  end.

(** The patterns of lines 50, 55 and 60. *)
Definition spaces : regex := Star (Alt (Lit SP) (Lit ZSP)).   (* ( |　)* *)

Definition br_line_pattern : regex :=      (* ( |　)*<(br|BR|br /|BR /)>( |　)* *)
  Eval vm_compute in
  Cat spaces
   (Cat (Lit LT)
    (Cat (Alt (Word (U "br")) (Alt (Word (U "BR"))
          (Alt (Word (U "br /")) (Word (U "BR /")))))
     (Cat (Lit GT) spaces))).

Definition re_section : regex :=                              (* 出席.* *)
  Eval vm_compute in Cat (Word (U "出席")) (Star Dot).

Definition re_rule : regex :=                                 (* 　*(―|－)+ *)
  Eval vm_compute in
  Cat (Star (Lit ZSP)) (Plus (Alt (Lit (hd 0 (U "―"))) (Lit (hd 0 (U "－"))))).

(** The line written at line 71. *)
Definition unsupported_count (ban_count : nat) : str :=
  U "「番」の数が " ++ str_of_nat ban_count ++ U " 個あり，対処できない" ++ [LF].

(** The loop of lines 59-72; leaving the recursion is the [break]. *)
Fixpoint rows_loop (rows : list str) (member_list : list str) : M (list str) :=
  match rows with
  | [] => ret member_list
  | row :: rows' =>
      if negb (contains BAN row) || re_fullmatch re_rule row then ret member_list
      else
        let ban_count := count BAN row in
        if (ban_count =? 2)%nat then
          let pivot := rfind BAN row - 2 in
          let member_list := member_list ++ [slice_to pivot row] in
          let member_list := member_list ++ [slice_from pivot row] in
          rows_loop rows' member_list
        else if (ban_count =? 1)%nat then
          let member_list := member_list ++ [row] in
          rows_loop rows' member_list
        else
          write (unsupported_count ban_count) ;;
          rows_loop rows' member_list
  end.

(** The format change of lines 50-52. *)
Definition reformat (html_string : str) : str :=
  let html_string := re_sub br_line_pattern [] html_string in
  replace_empty_line html_string.

(** The argument of [remove_number_honorific] at line 74. *)
Definition strip_spaces (member : str) : str :=
  replace [SP] [] (replace [ZSP] [] member).

(** [parse], lines 40-76. *)
Definition parse (html_string : str) : M (list member) :=
  let html_string := reformat html_string in
  match re_search re_section html_string with
  | None => raise AttributeError               (* re_res.start() on None *)
  | Some (st, _) =>
      let html_string := slice_from st html_string in
      member_list <- rows_loop (tl (split LF html_string)) [] ;;
      mapM (fun member => lift (remove_number_honorific (strip_spaces member)))
           member_list
  end.

(** The line written at line 101. *)
Definition conflict_warning (chardet_res nkf_res : str) : str :=
  U "[warning] conflict char_codes: " ++ chardet_res ++ U " vs " ++ nkf_res
    ++ [LF].

(** The strings of lines 102, 103 and 105. *)
Definition cp932 : str := Eval vm_compute in U "cp932".
Definition CP932 : str := Eval vm_compute in U "CP932".
Definition unsupported_message : str :=
  Eval vm_compute in U "現在扱えない文字コードで書かれたファイル：".

(** [det_encoding], lines 79-106.  The two detectors are libraries; their
    answers for the file are arguments: [chardet_encoding] is
    [detector.result['encoding']], which is [None] when chardet finds
    nothing, and [nkf_guess] is [nkf.guess(f.read())]. *)
Definition det_encoding (file_path : str) (chardet_encoding : option str)
    (nkf_guess : str) : M str :=
  match chardet_encoding with
  | None => raise AttributeError               (* None.lower() *)
  | Some encoding =>
      let chardet_res := lower encoding in
      let nkf_res := lower nkf_guess in
      if negb (str_eqb chardet_res nkf_res) then
        write (conflict_warning chardet_res nkf_res) ;;
        if str_eqb cp932 chardet_res || str_eqb cp932 nkf_res
        then ret CP932
        else raise (ValueError [unsupported_message; file_path])
      else ret chardet_res
  end.

End Main.

(** ** Functions used to state the properties *)

(** The string without, and cut after, its longest prefix of characters
    satisfying [p]. *)
Fixpoint dropwhile (p : char -> bool) (s : str) : str :=
  match s with
  | x :: s' => if p x then dropwhile p s' else s
  | [] => []
  end.

Fixpoint takewhile (p : char -> bool) (s : str) : str :=
  match s with
  | x :: s' => if p x then x :: takewhile p s' else []
  | [] => []
  end.

Section Engine.

Variable A : Type.
Implicit Types (k : str -> option A) (p : char -> bool).

(** One step of a pattern that reads exactly one character satisfying [p]. *)
Definition step1 p (s : str) k : option A :=
  match s with
  | x :: s' => if p x then k s' else None
  | [] => None
  end.

(** Greedy repetition of such a pattern, with backtracking. *)
Fixpoint greedy p (s : str) k : option A :=
  match s with
  | x :: s' =>
      if p x then
        match greedy p s' k with
        | Some a => Some a
        | None => k s
        end
      else k s
  | [] => k []
  end.

End Engine.

(** [r] reads exactly one character, which satisfies [p]. *)
Definition single (r : regex) (p : char -> bool) : Prop :=
  forall (A : Type) (s : str) (k : str -> option A), m r s k = step1 p s k.

(** What [.replace('\r\n', '\n')] computes, without the counter. *)
Fixpoint crlf (s : str) : str :=
  match s with
  | [] => []
  | c :: s' =>
      match s' with
      | d :: s'' => if (c =? CR) && (d =? LF) then LF :: crlf s'' else c :: crlf s'
      | [] => [c]
      end
  end.

(** What [re.sub(r'\n{2,}', '\n', _)] computes: a line feed is dropped when
    the character before it was a line feed. *)
Fixpoint squeeze (after_lf : bool) (s : str) : str :=
  match s with
  | [] => []
  | c :: s' =>
      if c =? LF then (if after_lf then squeeze true s' else LF :: squeeze true s')
      else c :: squeeze false s'
  end.

Definition is_lf (x : char) : bool := x =? LF.

(** [p in s] for a string [p]. *)
Fixpoint infix (s p : str) : bool :=
  startswith s p ||
  match s with
  | [] => false
  | _ :: s' => infix s' p
  end.

(** The character class of [re_number]: ASCII digits, the bar and the
    full-width digits. *)
Definition is_numchar (x : char) : bool :=
  in_class [(48, 57); (124, 124); (65296, 65305)] x.

(** A character of the class directly before 番. *)
Definition number_marker (f : str) : Prop :=
  exists pre d post, f = pre ++ d :: BAN :: post /\ is_numchar d = true.

(** The two ways out of the loop at line 60. *)
Definition terminal (row : str) : bool :=
  negb (contains BAN row) || re_fullmatch Main.re_rule row.

(** The fragments a row adds to [member_list]. *)
Definition row_fragments (row : str) : list str :=
  if (count BAN row =? 2)%nat then
    [slice_to (rfind BAN row - 2) row; slice_from (rfind BAN row - 2) row]
  else if (count BAN row =? 1)%nat then [row]
  else [].

(** What a row writes to the diagnostic channel. *)
Definition row_output (row : str) : list str :=
  if (count BAN row =? 2)%nat then []
  else if (count BAN row =? 1)%nat then []
  else [Main.unsupported_count (count BAN row)].

(** The rows before the [break]. *)
Fixpoint taken_rows (rows : list str) : list str :=
  match rows with
  | [] => []
  | row :: rows' => if terminal row then [] else row :: taken_rows rows'
  end.

(** The two spaces of [br_line_pattern] and of line 74. *)
Definition is_sp (x : char) : bool := (x =? SP) || (x =? ZSP).

(** The four spellings between [<] and [>]. *)
Definition br_tags : list str :=
  Eval vm_compute in [U "br"; U "BR"; U "br /"; U "BR /"].

(** [>] and the spaces after it. *)
Definition br_close (t : str) : option str :=
  match t with
  | x :: t' => if x =? 62 then Some (dropwhile is_sp t') else None
  | [] => None
  end.

(** One spelling, then [>]. *)
Definition br_try (w s : str) : option str :=
  if startswith s w then br_close (skipn (length w) s) else None.

(** The first spelling of [ws] that matches. *)
Fixpoint br_tag (ws : list str) (s : str) : option str :=
  match ws with
  | [] => None
  | w :: ws' =>
      match br_try w s with
      | Some rest => Some rest
      | None => br_tag ws' s
      end
  end.

(** The match of [br_line_pattern] at the head of a string. *)
Definition br_here (s : str) : option str :=
  match dropwhile is_sp s with
  | c :: s2 => if c =? 60 then br_tag br_tags s2 else None
  | [] => None
  end.

(** The rest of a match, with the following line put back. *)
Definition and_lf (rest : str) (o : option str) : option str :=
  match o with
  | Some r => Some (r ++ LF :: rest)
  | None => None
  end.

(** The rest of a match, when a text [t] is put after the string: the
    spaces that end the match run on into [t]. *)
Definition run_on (t : str) (o : option str) : option str :=
  match o with
  | Some r => Some (dropwhile is_sp (r ++ t))
  | None => None
  end.

(** The keyword of [re_section]. *)
Definition shusseki : str := Eval vm_compute in U "出席".

(** Whether the text read so far ends in a line feed. *)
Fixpoint ends_lf (b : bool) (P : str) : bool :=
  match P with
  | [] => b
  | c :: P' => ends_lf (c =? LF) P'
  end.

(** The document of the end-to-end scenario, up to the rule ――――. *)
Definition scenario : str :=
  U "出席議員" ++ [LF] ++ U "1番山田花子さん" ++ [LF; LF]
    ++ U "２番鈴木一郎君" ++ [LF] ++ U "――――".

(** The fragments that [parse] hands to [remove_number_honorific], before
    the spaces are removed, for the text from the section header on. *)
Definition section_fragments (body : str) : list str :=
  flat_map row_fragments (taken_rows (tl (split LF body))).

(** What the row loop writes to the diagnostic channel. *)
Definition section_output (body : str) : list str :=
  flat_map row_output (taken_rows (tl (split LF body))).

(** The removal of line-break markers at line 51. *)
Definition strip_br (s : str) : str := re_sub Main.br_line_pattern [] s.

(** The characters of a horizontal rule, ― and －. *)
Definition is_dash (x : char) : bool := (x =? 8213) || (x =? 65293).

Definition is_zsp (x : char) : bool := x =? ZSP.

(** Every character but the two of a line ending. *)
Definition is_content (x : char) : bool := negb ((x =? CR) || (x =? LF)).

(** A string without the spaces at its end. *)
Definition rstrip_spaces (s : str) : str := rev (dropwhile is_sp (rev s)).

(** The characters of a line ending. *)
Definition is_line_end (x : char) : bool := (x =? CR) || (x =? LF).

(** [deleted p s t]: [t] is [s] with some characters satisfying [p] taken
    out; what stays keeps its place in the order. *)
Inductive deleted (p : char -> bool) : str -> str -> Prop :=
| deleted_nil : deleted p [] []
| deleted_keep (c : char) (s t : str) :
    deleted p s t -> deleted p (c :: s) (c :: t)
| deleted_drop (c : char) (s t : str) :
    p c = true -> deleted p s t -> deleted p (c :: s) t.

(** * Properties *)

(** ** The string functions on small inputs *)

Example U_ban : U "出席番" = [20986; 24109; 30058].
Proof. vm_compute. reflexivity. Qed.

Example slice_negative :
  slice_to (-1) (U "abc") = U "ab" /\ slice_from (-1) (U "abc") = U "c" /\
  slice_to (-5) (U "abc") = [] /\ slice 1 2 (U "abc") = U "b".
Proof. repeat split; vm_compute; reflexivity. Qed.

Example replace_left_to_right : replace [CR; LF] [LF] [CR; CR; LF] = [CR; LF].
Proof. vm_compute. reflexivity. Qed.

Example split_keeps_empty_rows :
  split LF (U "a" ++ [LF; LF] ++ U "b" ++ [LF]) = [U "a"; []; U "b"; []].
Proof. vm_compute. reflexivity. Qed.

Example rfind_last : rfind BAN (U "1番山田2番") = 5 /\ rfind BAN (U "山田") = -1.
Proof. split; vm_compute; reflexivity. Qed.

Example re_sub_empty_matches :
  re_sub (Star (Lit 120)) (U "-") (U "abxd") = U "-a-b--d-".
Proof. vm_compute. reflexivity. Qed.

Example re_search_span :
  re_search Main.re_number (U "第12番山田") = Some (1, 4).
Proof. vm_compute. reflexivity. Qed.

Example re_fullmatch_rule :
  re_fullmatch Main.re_rule (ZSP :: U "―－―") = true /\
  re_fullmatch Main.re_rule (U "―" ++ [ZSP]) = false.
Proof. split; vm_compute; reflexivity. Qed.

Example unsupported_count_3 :
  Main.unsupported_count 3 = U "「番」の数が 3 個あり，対処できない" ++ [LF].
Proof. vm_compute. reflexivity. Qed.

(** ** The matcher on the shapes the program's patterns are made of *)

Lemma single_Lit (c : char) : single (Lit c) (fun x => x =? c).
Proof. intros A s k. reflexivity. Qed.

Lemma single_Class (ranges : list (char * char)) :
  single (Class ranges) (in_class ranges).
Proof. intros A s k. reflexivity. Qed.

Lemma single_Dot : single Dot (fun x => negb (x =? LF)).
Proof.
  intros A s k. destruct s as [|x s']; simpl; [reflexivity|].
  destruct (x =? LF); reflexivity.
Qed.

Lemma single_Alt (r1 r2 : regex) (p1 p2 : char -> bool) :
  single r1 p1 -> single r2 p2 -> single (Alt r1 r2) (fun x => p1 x || p2 x).
Proof.
  intros H1 H2 A s k. simpl. rewrite H1, H2.
  destruct s as [|x s']; simpl; [reflexivity|].
  destruct (p1 x), (p2 x); simpl; try reflexivity;
    destruct (k s'); reflexivity.
Qed.

Lemma m_Cat (A : Type) (r1 r2 : regex) (s : str) (k : str -> option A) :
  m (Cat r1 r2) s k = m r1 s (fun s' => m r2 s' k).
Proof. reflexivity. Qed.

Lemma m_Alt (A : Type) (r1 r2 : regex) (s : str) (k : str -> option A) :
  m (Alt r1 r2) s k =
  match m r1 s k with
  | Some a => Some a
  | None => m r2 s k
  end.
Proof. reflexivity. Qed.

Lemma m_Lit (A : Type) (c : char) (s : str) (k : str -> option A) :
  m (Lit c) s k = step1 (fun x => x =? c) s k.
Proof. reflexivity. Qed.

Lemma m_Star_single (r : regex) (p : char -> bool) :
  single r p ->
  forall (A : Type) (s : str) (k : str -> option A),
    m (Star r) s k = greedy p s k.
Proof.
  intros Hr A s k. simpl.
  assert (H : forall fuel s, (length s <= fuel)%nat ->
    (fix loop (fuel : nat) (s : str) {struct fuel} : option A :=
       match fuel with
       | O => k s
       | S fuel' =>
           match m r s (fun s' => if (length s' <? length s)%nat
                                   then loop fuel' s' else None) with
           | Some a => Some a
           | None => k s
           end
       end) fuel s = greedy p s k).
  { induction fuel as [|fuel IH]; intros t Ht.
    - destruct t; [reflexivity | simpl in Ht; lia].
    - rewrite Hr. destruct t as [|x t']; simpl; [reflexivity|].
      destruct (p x); [|reflexivity].
      assert (Hlt : (length t' <? S (length t'))%nat = true)
        by (apply Nat.ltb_lt; lia).
      rewrite Hlt, IH by (simpl in Ht; lia). reflexivity. }
  apply H. lia.
Qed.

Lemma greedy_commit (A : Type) (p : char -> bool) (k : str -> option A) :
  (forall x s, p x = true -> k (x :: s) = None) ->
  forall s, greedy p s k = k (dropwhile p s).
Proof.
  intros Hk. induction s as [|x s IH]; simpl; [reflexivity|].
  destruct (p x) eqn:Hp; [|reflexivity].
  rewrite IH. destruct (k (dropwhile p s)) eqn:E; [reflexivity|].
  apply Hk; assumption.
Qed.

Lemma greedy_Some (p : char -> bool) (s : str) :
  greedy p s (@Some str) = Some (dropwhile p s).
Proof.
  induction s as [|x s IH]; simpl; [reflexivity|].
  destruct (p x); [rewrite IH|]; reflexivity.
Qed.

Lemma m_Word (A : Type) (w s : str) (k : str -> option A) :
  m (Word w) s k = if startswith s w then k (skipn (length w) s) else None.
Proof.
  revert s. induction w as [|c w IH]; intros s; simpl;
    [destruct s; reflexivity|].
  destruct s as [|x s]; [reflexivity|]. cbn [startswith].
  destruct (x =? c); simpl; [apply IH | reflexivity].
Qed.

Lemma take_drop (p : char -> bool) (s : str) :
  takewhile p s ++ dropwhile p s = s.
Proof.
  induction s as [|x s IH]; simpl; [reflexivity|].
  destruct (p x); simpl; [rewrite IH|]; reflexivity.
Qed.

Lemma takewhile_all (p : char -> bool) (s : str) :
  forallb p (takewhile p s) = true.
Proof.
  induction s as [|x s IH]; simpl; [reflexivity|].
  destruct (p x) eqn:E; simpl; [rewrite E; exact IH | reflexivity].
Qed.

Lemma dropwhile_app (p : char -> bool) (a b : str) :
  forallb p a = true -> dropwhile p (a ++ b) = dropwhile p b.
Proof.
  induction a as [|x a IH]; simpl; [reflexivity|].
  destruct (p x); simpl; [exact IH | discriminate].
Qed.

(** Whatever a pattern hands to its continuation is a suffix of the string. *)
Lemma m_suffix (r : regex) :
  forall (A : Type) (s : str) (k : str -> option A) (a : A),
    m r s k = Some a ->
    exists n, (n <= length s)%nat /\ k (skipn n s) = Some a.
Proof.
  induction r as [|c|ranges| |r1 IH1 r2 IH2|r1 IH1 r2 IH2|r IH];
    intros A s k a H; simpl in H.
  - exists 0%nat. split; [lia | exact H].
  - destruct s as [|x s]; [discriminate|].
    destruct (x =? c); [|discriminate].
    exists 1%nat. simpl. split; [lia | exact H].
  - destruct s as [|x s]; [discriminate|].
    destruct (in_class ranges x); [|discriminate].
    exists 1%nat. simpl. split; [lia | exact H].
  - destruct s as [|x s]; [discriminate|].
    destruct (x =? LF); [discriminate|].
    exists 1%nat. simpl. split; [lia | exact H].
  - apply IH1 in H. destruct H as (n1 & Hn1 & H).
    apply IH2 in H. destruct H as (n2 & Hn2 & H).
    exists (n2 + n1)%nat. rewrite length_skipn in Hn2.
    split; [lia|]. rewrite skipn_skipn in H. exact H.
  - destruct (m r1 s k) eqn:E.
    + inversion H; subst. apply IH1 in E. exact E.
    + apply IH2 in H. exact H.
  - revert H. generalize (length s) at 1. intros fuel. revert s.
    induction fuel as [|fuel IHf]; intros s H.
    + exists 0%nat. split; [lia | exact H].
    + match type of H with
      | match ?X with _ => _ end = _ => destruct X eqn:E
      end.
      * inversion H; subst. apply IH in E. destruct E as (n1 & Hn1 & E).
        destruct (length (skipn n1 s) <? length s)%nat; [|discriminate].
        apply IHf in E. destruct E as (n2 & Hn2 & E).
        exists (n2 + n1)%nat. rewrite length_skipn in Hn2.
        split; [lia|]. rewrite skipn_skipn in E. exact E.
      * exists 0%nat. split; [lia | exact H].
Qed.

Lemma match_here_suffix (r : regex) (s rest : str) :
  match_here r s = Some rest ->
  exists mid, s = mid ++ rest.
Proof.
  intros H. apply m_suffix in H. destruct H as (n & _ & H).
  inversion H. exists (firstn n s). symmetry. apply firstn_skipn.
Qed.

(** ** [re.sub] and [re.search], step by step *)

Lemma sub_go_skip (r : regex) (repl : str) (n : nat) (s : str) :
  (n <= length s)%nat -> sub_go r repl n s = sub_go r repl 0 (skipn n s).
Proof.
  revert n. induction s as [|c s IH]; intros n Hn.
  - simpl in Hn. replace n with 0%nat by lia. reflexivity.
  - destruct n as [|n]; [reflexivity|].
    simpl in Hn. cbn [sub_go skipn]. apply IH. lia.
Qed.

Lemma re_sub_nil (r : regex) (repl : str) :
  match_here r [] = None -> re_sub r repl [] = [].
Proof. intros H. unfold re_sub. cbn [sub_go]. rewrite H. reflexivity. Qed.

Lemma re_sub_cons_None (r : regex) (repl : str) (c : char) (s : str) :
  match_here r (c :: s) = None ->
  re_sub r repl (c :: s) = c :: re_sub r repl s.
Proof. intros H. unfold re_sub. cbn [sub_go]. rewrite H. reflexivity. Qed.

Lemma re_sub_cons_Some (r : regex) (repl : str) (c : char) (s rest : str) :
  match_here r (c :: s) = Some rest ->
  (length rest <= length s)%nat ->
  re_sub r repl (c :: s) = repl ++ re_sub r repl rest.
Proof.
  intros H Hlen. unfold re_sub. cbn [sub_go]. rewrite H.
  destruct (match_here_suffix _ _ H) as (mid & Hmid).
  assert (Hl : length (c :: s) = (length mid + length rest)%nat)
    by (rewrite Hmid; apply length_app).
  assert (Hc : length (c :: s) = S (length s)) by reflexivity.
  destruct (length (c :: s) - length rest)%nat as [|k] eqn:E; [lia|].
  rewrite sub_go_skip by lia.
  replace (skipn k s) with rest; [reflexivity|].
  change (skipn k s) with (skipn (S k) (c :: s)).
  rewrite Hmid. replace (S k) with (length mid) by lia.
  rewrite skipn_app, skipn_all, Nat.sub_diag. reflexivity.
Qed.

(** A pattern that matches nowhere leaves the string as it is. *)
Lemma re_sub_no_match (r : regex) (repl : str) (s : str) :
  (forall pre suf, s = pre ++ suf -> match_here r suf = None) ->
  re_sub r repl s = s.
Proof.
  induction s as [|c s IH]; intros H.
  - apply re_sub_nil. apply (H [] []). reflexivity.
  - rewrite re_sub_cons_None by (apply (H []); reflexivity).
    f_equal. apply IH. intros pre suf E. apply (H (c :: pre)).
    rewrite E. reflexivity.
Qed.

Lemma search_from_head (r : regex) (i : Z) (s rest : str) :
  match_here r s = Some rest ->
  search_from r i s = Some (i, i + Z.of_nat (length s - length rest)).
Proof. intros H. destruct s; simpl; rewrite H; reflexivity. Qed.

Lemma search_from_eq (r : regex) (i : Z) (s : str) :
  search_from r i s =
  match match_here r s with
  | Some rest => Some (i, i + Z.of_nat (length s - length rest))
  | None =>
      match s with
      | [] => None
      | _ :: s' => search_from r (i + 1) s'
      end
  end.
Proof. destruct s; reflexivity. Qed.

Lemma search_from_Some (r : regex) (s : str) :
  forall i st en,
    search_from r i s = Some (st, en) ->
    exists pre mid rest,
      s = pre ++ mid ++ rest /\
      st = i + Z.of_nat (length pre) /\
      en = st + Z.of_nat (length mid) /\
      match_here r (mid ++ rest) = Some rest.
Proof.
  induction s as [|c s IH]; intros i st en H; rewrite search_from_eq in H.
  - destruct (match_here r []) as [rest|] eqn:E; [|discriminate].
    injection H as <- <-. destruct (match_here_suffix _ _ E) as (mid & Hmid).
    symmetry in Hmid. apply app_eq_nil in Hmid. destruct Hmid as [-> ->].
    exists [], [], []. repeat split; try assumption; simpl; lia.
  - destruct (match_here r (c :: s)) as [rest|] eqn:E.
    + injection H as <- <-.
      destruct (match_here_suffix _ _ E) as (mid & Hmid).
      assert (Hl : S (length s) = (length mid + length rest)%nat)
        by (change (S (length s)) with (length (c :: s)); rewrite Hmid;
            apply length_app).
      exists [], mid, rest. rewrite <- Hmid. cbn [app].
      change (length (@nil char)) with 0%nat.
      repeat split; try assumption; try reflexivity;
        destruct (length rest); lia.
    + apply IH in H. destruct H as (pre & mid & rest & -> & -> & -> & Hm).
      exists (c :: pre), mid, rest. cbn [app length].
      repeat split; try lia; assumption.
Qed.

Lemma search_from_None (r : regex) (s : str) (i : Z) :
  search_from r i s = None <->
  (forall pre suf, s = pre ++ suf -> match_here r suf = None).
Proof.
  revert i. induction s as [|c s IH]; intros i; split.
  - intros H pre suf E. symmetry in E. apply app_eq_nil in E.
    destruct E as [_ ->]. simpl in H.
    destruct (match_here r []); [discriminate | reflexivity].
  - intros H. simpl. rewrite (H [] []); reflexivity.
  - intros H pre suf E. rewrite search_from_eq in H.
    destruct (match_here r (c :: s)) eqn:E1; [discriminate|].
    destruct pre as [|x pre]; simpl in E.
    + subst suf. exact E1.
    + inversion E; subst. apply (proj1 (IH (i + 1)) H pre). reflexivity.
  - intros H. rewrite search_from_eq.
    rewrite (H [] (c :: s)) by reflexivity.
    apply IH. intros pre suf E. apply (H (c :: pre)). rewrite E. reflexivity.
Qed.

(** ** Line endings *)

Lemma startswith_nil (s : str) : startswith s [] = true.
Proof. destruct s; reflexivity. Qed.

Lemma startswith_cons (x c : char) (s p : str) :
  startswith (x :: s) (c :: p) = (x =? c) && startswith s p.
Proof. reflexivity. Qed.

Lemma replace_go_cons0 (old new : str) (c : char) (s : str) :
  replace_go old new 0 (c :: s) =
  if startswith (c :: s) old
  then new ++ replace_go old new (length old - 1) s
  else c :: replace_go old new 0 s.
Proof. reflexivity. Qed.

Lemma replace_crlf (s : str) : replace [CR; LF] [LF] s = crlf s.
Proof.
  unfold replace.
  assert (H : forall n s, (length s <= n)%nat ->
            replace_go [CR; LF] [LF] 0 s = crlf s).
  { induction n as [|n IH]; intros t Ht.
    - destruct t; [reflexivity | simpl in Ht; lia].
    - destruct t as [|c [|d t]]; [reflexivity | |].
      + rewrite replace_go_cons0, startswith_cons.
        destruct (c =? CR); reflexivity.
      + rewrite replace_go_cons0, !startswith_cons, startswith_nil.
        cbn [crlf]. rewrite andb_true_r.
        destruct ((c =? CR) && (d =? LF)).
        * cbn [length Nat.sub app replace_go]. f_equal.
          apply IH. simpl in Ht. lia.
        * f_equal. apply IH. simpl in Ht. simpl. lia. }
  apply (H (length s)). lia.
Qed.

Lemma match_here_blank (s : str) :
  match_here Main.re_blank s =
  match s with
  | c :: d :: t =>
      if (c =? LF) && (d =? LF) then Some (dropwhile (fun x => x =? LF) t)
      else None
  | _ => None
  end.
Proof.
  unfold match_here, Main.re_blank. cbn [AtLeast].
  rewrite m_Cat, m_Lit.
  destruct s as [|c s]; [reflexivity|]. cbn [step1].
  destruct (c =? LF); [|destruct s; reflexivity].
  rewrite m_Cat, m_Lit.
  destruct s as [|d t]; [reflexivity|]. cbn [step1 andb].
  destruct (d =? LF); [|reflexivity].
  rewrite (m_Star_single (@single_Lit LF)). apply greedy_Some.
Qed.

Lemma dropwhile_length (p : char -> bool) (s : str) :
  (length (dropwhile p s) <= length s)%nat.
Proof.
  induction s as [|x s IH]; simpl; [lia|].
  destruct (p x); simpl; lia.
Qed.

Lemma squeeze_dropwhile (s : str) :
  squeeze true s = squeeze false (dropwhile is_lf s).
Proof.
  induction s as [|x s IH]; [reflexivity|].
  cbn [squeeze dropwhile]. unfold is_lf at 1.
  destruct (x =? LF) eqn:E; [exact IH|].
  cbn [squeeze]. rewrite E. reflexivity.
Qed.

Lemma sub_blank (s : str) : re_sub Main.re_blank [LF] s = squeeze false s.
Proof.
  remember (length s) as n eqn:Hn.
  revert s Hn. induction n as [n IH] using lt_wf_ind. intros s Hn.
  destruct s as [|c s].
  - apply re_sub_nil. rewrite match_here_blank. reflexivity.
  - pose proof (match_here_blank (c :: s)) as Hm.
    destruct s as [|d t].
    + rewrite re_sub_cons_None by exact Hm.
      rewrite re_sub_nil by (rewrite match_here_blank; reflexivity).
      simpl. destruct (Z.eqb_spec c LF); subst; reflexivity.
    + destruct ((c =? LF) && (d =? LF)) eqn:E.
      * apply andb_true_iff in E. destruct E as [Ec Ed].
        rewrite (@re_sub_cons_Some _ [LF] _ _ _ Hm)
          by (pose proof (dropwhile_length (fun x => x =? LF) t);
              simpl; lia).
        cbn [squeeze app]. rewrite Ec, Ed. f_equal.
        rewrite squeeze_dropwhile.
        apply (IH (length (dropwhile (fun x => x =? LF) t))); [|reflexivity].
        pose proof (dropwhile_length (fun x => x =? LF) t).
        subst n. simpl. lia.
      * rewrite re_sub_cons_None by exact Hm.
        rewrite (IH (length (d :: t))) with (s := d :: t);
          [|subst n; simpl; lia | reflexivity].
        cbn [squeeze]. destruct (Z.eqb_spec c LF) as [->|Hc]; [|reflexivity].
        change (LF =? LF) with true in E. cbn [andb] in E. rewrite E.
        reflexivity.
Qed.

Lemma replace_empty_line_spec (s : str) :
  Main.replace_empty_line s = squeeze false (crlf s).
Proof.
  unfold Main.replace_empty_line. rewrite replace_crlf. apply sub_blank.
Qed.

Lemma infix_cons (x : char) (s p : str) :
  infix (x :: s) p = startswith (x :: s) p || infix s p.
Proof. reflexivity. Qed.

Lemma crlf_cons2 (c d : char) (s : str) :
  crlf (c :: d :: s) =
  if (c =? CR) && (d =? LF) then LF :: crlf s else c :: crlf (d :: s).
Proof. reflexivity. Qed.

Lemma crlf_head_lf (s : str) :
  startswith (crlf s) [LF] = true ->
  startswith s [LF] = true \/ startswith s [CR; LF] = true.
Proof.
  destruct s as [|c [|d s]]; [discriminate | |].
  - cbn [crlf]. intros H. left. exact H.
  - rewrite crlf_cons2, !startswith_cons, !startswith_nil, !andb_true_r.
    destruct ((c =? CR) && (d =? LF)) eqn:E; [intros _; right; reflexivity|].
    rewrite startswith_cons, startswith_nil, andb_true_r. intros H.
    left. exact H.
Qed.

Lemma crlf_no_crlf (s : str) :
  infix s [CR; CR; LF] = false -> infix (crlf s) [CR; LF] = false.
Proof.
  remember (length s) as n eqn:Hn.
  revert s Hn. induction n as [n IH] using lt_wf_ind. intros s Hn H.
  destruct s as [|c [|d s]]; [reflexivity | |].
  - cbn [crlf]. rewrite infix_cons, startswith_cons. cbn.
    rewrite andb_false_r. reflexivity.
  - rewrite infix_cons in H. apply orb_false_iff in H. destruct H as [H1 H2].
    rewrite crlf_cons2. destruct ((c =? CR) && (d =? LF)) eqn:E.
    + rewrite infix_cons, startswith_cons. change (LF =? CR) with false.
      cbn [andb orb]. rewrite infix_cons in H2.
      apply orb_false_iff in H2. destruct H2 as [_ H2].
      apply (IH (length s)); [subst n; simpl; lia | reflexivity | exact H2].
    + rewrite infix_cons. apply orb_false_iff. split.
      * rewrite startswith_cons.
        destruct (c =? CR) eqn:Ec; [cbn [andb] | reflexivity].
        cbn [andb] in E.
        destruct (startswith (crlf (d :: s)) [LF]) eqn:Eh; [|reflexivity].
        apply crlf_head_lf in Eh. destruct Eh as [Eh|Eh].
        -- rewrite startswith_cons, startswith_nil, andb_true_r in Eh.
           congruence.
        -- rewrite startswith_cons, Ec in H1. cbn [andb] in H1. congruence.
      * apply (IH (length (d :: s))); [subst n; simpl; lia | reflexivity
                                      | exact H2].
Qed.

Lemma squeeze_false_head (s : str) :
  startswith (squeeze false s) [LF] = startswith s [LF].
Proof.
  destruct s as [|c s]; [reflexivity|]. cbn [squeeze].
  destruct (c =? LF) eqn:E; rewrite !startswith_cons, !startswith_nil, ?E;
    reflexivity.
Qed.

Lemma squeeze_no_crlf (s : str) :
  forall b, infix s [CR; LF] = false -> infix (squeeze b s) [CR; LF] = false.
Proof.
  induction s as [|c s IH]; intros b H; [reflexivity|].
  rewrite infix_cons in H. apply orb_false_iff in H. destruct H as [H1 H2].
  cbn [squeeze]. destruct (c =? LF) eqn:E.
  - destruct b; [apply IH; exact H2|].
    rewrite infix_cons, startswith_cons. change (LF =? CR) with false.
    cbn [andb orb]. apply IH. exact H2.
  - rewrite infix_cons. apply orb_false_iff. split; [|apply IH; exact H2].
    rewrite startswith_cons in *. rewrite squeeze_false_head. exact H1.
Qed.

Lemma crlf_id (s : str) : infix s [CR; LF] = false -> crlf s = s.
Proof.
  remember (length s) as n eqn:Hn.
  revert s Hn. induction n as [n IH] using lt_wf_ind. intros s Hn H.
  destruct s as [|c [|d s]]; [reflexivity | reflexivity |].
  rewrite infix_cons in H. apply orb_false_iff in H. destruct H as [H1 H2].
  rewrite crlf_cons2.
  rewrite !startswith_cons, startswith_nil, andb_true_r in H1. rewrite H1.
  f_equal. apply (IH (length (d :: s))); [subst n; simpl; lia | reflexivity
                                         | exact H2].
Qed.

Lemma squeeze_idem (s : str) :
  forall b b', (b' = true -> b = true) ->
    squeeze b' (squeeze b s) = squeeze b s.
Proof.
  induction s as [|c s IH]; intros b b' Hb; [reflexivity|].
  cbn [squeeze]. destruct (c =? LF) eqn:E.
  - destruct b.
    + apply IH; intros H; first [exact H | reflexivity].
    + destruct b'; [discriminate (Hb eq_refl)|].
      cbn [squeeze]. change (LF =? LF) with true. cbn iota.
      f_equal. apply IH; intros H; first [exact H | reflexivity].
  - cbn [squeeze]. rewrite E. f_equal. apply IH; intros H; first [exact H | reflexivity].
Qed.

Lemma infix_app_r (x : char) (s p : str) :
  infix s p = true -> infix (x :: s) p = true.
Proof. intros H. rewrite infix_cons, H. apply orb_true_r. Qed.

Lemma crlf_length (s : str) : (length (crlf s) <= length s)%nat.
Proof.
  remember (length s) as n eqn:Hn.
  revert s Hn. induction n as [n IH] using lt_wf_ind. intros s Hn.
  destruct s as [|c [|d s]]; [subst n; simpl; lia | subst n; simpl; lia |].
  rewrite crlf_cons2. destruct ((c =? CR) && (d =? LF)).
  - pose proof (IH (length s)) as H.
    specialize (H ltac:(subst n; simpl; lia) s eq_refl).
    subst n. cbn [length] in *. lia.
  - pose proof (IH (length (d :: s))) as H.
    specialize (H ltac:(subst n; simpl; lia) (d :: s) eq_refl).
    subst n. cbn [length] in *. lia.
Qed.

Lemma crlf_shrinks (s : str) :
  infix s [CR; LF] = true -> (length (crlf s) < length s)%nat.
Proof.
  remember (length s) as n eqn:Hn.
  revert s Hn. induction n as [n IH] using lt_wf_ind. intros s Hn H.
  destruct s as [|c [|d s]]; [discriminate | |].
  - rewrite infix_cons, startswith_cons in H. cbn in H.
    rewrite andb_false_r in H. discriminate.
  - rewrite crlf_cons2. destruct ((c =? CR) && (d =? LF)) eqn:E.
    + pose proof (crlf_length s). subst n. cbn [length]. lia.
    + rewrite infix_cons, !startswith_cons, startswith_nil, andb_true_r, E in H.
      cbn [orb] in H.
      pose proof (IH (length (d :: s))) as H'.
      specialize (H' ltac:(subst n; simpl; lia) (d :: s) eq_refl H).
      subst n. cbn [length] in *. lia.
Qed.

Lemma crlf_keeps_crcrlf (s : str) :
  infix s [CR; CR; LF] = true -> infix (crlf s) [CR; LF] = true.
Proof.
  remember (length s) as n eqn:Hn.
  revert s Hn. induction n as [n IH] using lt_wf_ind. intros s Hn H.
  destruct s as [|c [|d s]]; [discriminate | |].
  - rewrite infix_cons, startswith_cons in H. cbn in H.
    rewrite andb_false_r in H. discriminate.
  - rewrite infix_cons in H. rewrite crlf_cons2.
    destruct (startswith (c :: d :: s) [CR; CR; LF]) eqn:Es.
    + rewrite !startswith_cons in Es.
      apply andb_true_iff in Es. destruct Es as [Ec Es].
      apply andb_true_iff in Es. destruct Es as [Ed Es].
      destruct s as [|e s]; [discriminate|].
      rewrite startswith_cons, startswith_nil, andb_true_r in Es.
      apply Z.eqb_eq in Ec, Ed, Es. subst c d e.
      change ((CR =? CR) && (CR =? LF)) with false. cbn iota.
      rewrite crlf_cons2. change ((CR =? CR) && (LF =? LF)) with true.
      cbn iota. rewrite infix_cons, !startswith_cons, startswith_nil.
      reflexivity.
    + cbn [orb] in H. destruct ((c =? CR) && (d =? LF)) eqn:E.
      * apply infix_app_r.
        rewrite infix_cons, startswith_cons in H.
        apply andb_true_iff in E. destruct E as [_ Ed].
        apply Z.eqb_eq in Ed. subst d. change (LF =? CR) with false in H.
        cbn [andb orb] in H.
        apply (IH (length s)); [subst n; simpl; lia | reflexivity | exact H].
      * apply infix_app_r.
        apply (IH (length (d :: s))); [subst n; simpl; lia | reflexivity
                                      | exact H].
Qed.

Lemma squeeze_length (s : str) :
  forall b, (length (squeeze b s) <= length s)%nat.
Proof.
  induction s as [|c s IH]; intros b; [simpl; lia|].
  pose proof (IH true). pose proof (IH false).
  cbn [squeeze]. destruct (c =? LF); [destruct b|]; cbn [length]; lia.
Qed.

Lemma squeeze_keeps_crlf (s : str) :
  forall b, infix s [CR; LF] = true -> infix (squeeze b s) [CR; LF] = true.
Proof.
  induction s as [|c s IH]; intros b H; [discriminate|].
  rewrite infix_cons in H.
  destruct (startswith (c :: s) [CR; LF]) eqn:Es.
  - rewrite startswith_cons in Es.
    apply andb_true_iff in Es. destruct Es as [Ec Es].
    destruct s as [|d s]; [discriminate|].
    rewrite startswith_cons, startswith_nil, andb_true_r in Es.
    apply Z.eqb_eq in Ec, Es. subst c d. cbn [squeeze].
    change (CR =? LF) with false. change (LF =? LF) with true. cbn iota.
    rewrite infix_cons, !startswith_cons, startswith_nil. reflexivity.
  - cbn [orb] in H. cbn [squeeze].
    destruct (c =? LF); [destruct b|]; try apply infix_app_r; apply IH;
      exact H.
Qed.

(** ** The number marker *)

Lemma BAN_not_numchar : is_numchar BAN = false.
Proof. reflexivity. Qed.

Lemma match_here_number (s : str) :
  match_here Main.re_number s =
  match s with
  | x :: s1 =>
      if is_numchar x then
        match dropwhile is_numchar s1 with
        | y :: t => if y =? BAN then Some t else None
        | [] => None
        end
      else None
  | [] => None
  end.
Proof.
  unfold match_here, Main.re_number. rewrite !m_Cat.
  rewrite (@single_Class [(48, 57); (124, 124); (65296, 65305)]).
  destruct s as [|x s1]; [reflexivity|]. cbn [step1]. fold (is_numchar x).
  destruct (is_numchar x); [|reflexivity].
  rewrite (m_Star_single (@single_Class [(48, 57); (124, 124); (65296, 65305)])).
  fold is_numchar. rewrite greedy_commit.
  - rewrite m_Lit. reflexivity.
  - intros y t Hy. rewrite m_Lit. cbn [step1].
    destruct (Z.eqb_spec y 30058) as [->|]; [|reflexivity].
    vm_compute in Hy. discriminate.
Qed.

Lemma match_here_number_Some (s rest : str) :
  match_here Main.re_number s = Some rest ->
  exists run, s = run ++ BAN :: rest /\ run <> [] /\
              forallb is_numchar run = true.
Proof.
  rewrite match_here_number. destruct s as [|x s1]; [discriminate|].
  destruct (is_numchar x) eqn:Ex; [|discriminate].
  destruct (dropwhile is_numchar s1) as [|y t] eqn:Ed; [discriminate|].
  destruct (Z.eqb_spec y BAN) as [->|]; [|discriminate].
  intros H. injection H as <-.
  exists (x :: takewhile is_numchar s1). repeat split.
  - rewrite <- Ed. cbn [app]. rewrite take_drop. reflexivity.
  - discriminate.
  - cbn [forallb]. rewrite Ex, takewhile_all. reflexivity.
Qed.

Lemma match_here_number_marker (d : char) (post : str) :
  is_numchar d = true ->
  match_here Main.re_number (d :: BAN :: post) = Some post.
Proof.
  intros Hd. rewrite match_here_number, Hd. cbn [dropwhile].
  rewrite BAN_not_numchar. change (BAN =? BAN) with true. reflexivity.
Qed.

Lemma number_marker_search (f : str) :
  number_marker f <-> re_search Main.re_number f <> None.
Proof.
  unfold re_search. split.
  - intros (pre & d & post & -> & Hd) H.
    apply (proj1 (search_from_None _ _ _)) with (pre := pre)
      (suf := d :: BAN :: post) in H; [|reflexivity].
    rewrite match_here_number_marker in H by exact Hd. discriminate.
  - intros H. destruct (search_from Main.re_number 0 f) as [[st en]|] eqn:E;
      [|congruence].
    apply search_from_Some in E.
    destruct E as (pre & mid & rest & -> & _ & _ & Hm).
    apply match_here_number_Some in Hm.
    destruct Hm as (run & Hrun & Hne & Hall).
    destruct (exists_last Hne) as (run' & d & ->).
    rewrite forallb_app in Hall. apply andb_true_iff in Hall.
    destruct Hall as [_ Hd]. cbn in Hd. rewrite andb_true_r in Hd.
    exists (pre ++ run'), d, rest. split; [|exact Hd].
    rewrite Hrun, <- !app_assoc. reflexivity.
Qed.

(** ** Slices *)

Lemma clamp_of_nat (len n : nat) :
  (n <= len)%nat -> clamp len (Z.of_nat n) = n.
Proof.
  intros H. unfold clamp.
  destruct (Z.ltb_spec (Z.of_nat n) 0) as [Hlt|_]; [lia|].
  rewrite Nat2Z.id. lia.
Qed.

Lemma slice_from_app (a b : str) :
  slice_from (Z.of_nat (length a)) (a ++ b) = b.
Proof.
  unfold slice_from. rewrite clamp_of_nat by (rewrite length_app; lia).
  rewrite skipn_app, skipn_all, Nat.sub_diag. reflexivity.
Qed.

Lemma slice_app (a b c : str) :
  slice (Z.of_nat (length a)) (Z.of_nat (length a + length b)) (a ++ b ++ c) = b.
Proof.
  unfold slice. rewrite !clamp_of_nat by (rewrite !length_app; lia).
  rewrite skipn_app, skipn_all, Nat.sub_diag. cbn [app skipn].
  replace (length a + length b - length a)%nat with (length b + 0)%nat by lia.
  rewrite firstn_app_2. cbn [firstn]. apply app_nil_r.
Qed.

(** ** [remove_number_honorific] *)

Lemma remove_number_honorific_inr (f : str) (r : Main.member) :
  Main.remove_number_honorific f = inr r ->
  exists pre run rest,
    f = pre ++ run ++ BAN :: rest /\ run <> [] /\
    forallb is_numchar run = true /\
    Main.number r = Main.zen_to_han run /\
    Main.name r =
      if endswith rest Main.giin || endswith rest Main.san
      then slice_to (-2) rest
      else if endswith rest Main.kun then slice_to (-1) rest else rest.
Proof.
  unfold Main.remove_number_honorific, re_search.
  destruct (search_from Main.re_number 0 f) as [[st en]|] eqn:E;
    [|discriminate].
  apply search_from_Some in E.
  destruct E as (pre & mid & rest & -> & -> & -> & Hm).
  apply match_here_number_Some in Hm. destruct Hm as (run & Hrun & Hne & Hall).
  assert (Hmid : mid = run ++ [BAN]).
  { apply (app_inv_tail rest). rewrite Hrun, <- app_assoc. reflexivity. }
  subst mid. intros H. injection H as <-.
  exists pre, run, rest. repeat split; try assumption.
  - rewrite <- !app_assoc. reflexivity.
  - cbn [Main.number]. f_equal.
    rewrite <- !app_assoc. cbn [app].
    replace (0 + Z.of_nat (length pre)) with (Z.of_nat (length pre)) by lia.
    replace (Z.of_nat (length pre) + Z.of_nat (length (run ++ [BAN])) - 1)
      with (Z.of_nat (length pre + length run))
      by (rewrite length_app; simpl; lia).
    apply slice_app.
  - cbn [Main.name].
    replace (Z.of_nat (length pre) + Z.of_nat (length (run ++ [BAN])))
      with (Z.of_nat (length (pre ++ (run ++ [BAN]))))
      by (rewrite (length_app pre); lia).
    rewrite (app_assoc pre (run ++ [BAN]) rest), slice_from_app. reflexivity.
Qed.

Lemma remove_number_honorific_inl (f : str) :
  Main.remove_number_honorific f = inl AttributeError <-> ~ number_marker f.
Proof.
  rewrite number_marker_search. unfold Main.remove_number_honorific.
  destruct (re_search Main.re_number f) as [[st en]|]; split; intros H;
    try discriminate; try reflexivity.
  - exfalso. apply H. discriminate.
  - intros H'. apply H'. reflexivity.
Qed.

Lemma remove_number_honorific_exn (f : str) (e : exn) :
  Main.remove_number_honorific f = inl e -> e = AttributeError.
Proof.
  unfold Main.remove_number_honorific.
  destruct (re_search Main.re_number f) as [[st en]|]; congruence.
Qed.

(** ** The monad *)

Lemma mapM_lift_inr (A B : Type) (f : A -> exn + B) (l : list A) :
  forall out ys,
    mapM (fun x => lift (f x)) l = (out, inr ys) ->
    out = [] /\ Forall2 (fun x y => f x = inr y) l ys.
Proof.
  induction l as [|x l IH]; intros out ys H.
  - injection H as <- <-. split; [reflexivity | constructor].
  - cbn [mapM] in H. unfold lift at 1 in H. cbn [bind] in H.
    destruct (f x) as [e|y] eqn:Ex.
    + cbn in H. discriminate.
    + cbn [bind] in H.
      destruct (mapM (fun x => lift (f x)) l) as [out' [e|ys']] eqn:Em.
      * cbn in H. discriminate.
      * destruct (IH _ _ eq_refl) as [-> HF]. cbn in H.
        injection H as <- <-. split; [reflexivity|].
        constructor; assumption.
Qed.

Lemma mapM_lift_inl (A B : Type) (f : A -> exn + B) (l : list A) :
  forall out e,
    mapM (fun x => lift (f x)) l = (out, inl e) ->
    out = [] /\ exists x, In x l /\ f x = inl e.
Proof.
  induction l as [|x l IH]; intros out e H.
  - discriminate.
  - cbn [mapM] in H. unfold lift at 1 in H. cbn [bind] in H.
    destruct (f x) as [e'|y] eqn:Ex.
    + cbn in H. injection H as <- <-. split; [reflexivity|].
      exists x. split; [left; reflexivity | exact Ex].
    + cbn [bind] in H.
      destruct (mapM (fun x => lift (f x)) l) as [out' [e'|ys']] eqn:Em.
      * destruct (IH _ _ eq_refl) as [-> (x' & Hin & Hx')]. cbn in H.
        injection H as <- <-. split; [reflexivity|].
        exists x'. split; [right; exact Hin | exact Hx'].
      * cbn in H. discriminate.
Qed.

Lemma mapM_lift_fails (A B : Type) (f : A -> exn + B) (l : list A) (x : A)
    (e : exn) :
  In x l -> f x = inl e ->
  exists e', mapM (fun x => lift (f x)) l = ([], inl e').
Proof.
  induction l as [|a l IH]; intros Hin Hx; [contradiction|].
  cbn [mapM]. unfold lift at 1. cbn [bind].
  destruct (f a) as [e'|y] eqn:Ea.
  - exists e'. reflexivity.
  - cbn [bind]. destruct Hin as [->|Hin]; [congruence|].
    destruct (IH Hin Hx) as (e' & ->). exists e'. reflexivity.
Qed.

(** ** The row loop *)

Lemma rows_loop_spec (rows : list str) :
  forall member_list,
    Main.rows_loop rows member_list =
    (flat_map row_output (taken_rows rows),
     inr (member_list ++ flat_map row_fragments (taken_rows rows))).
Proof.
  induction rows as [|row rows IH]; intros member_list.
  - cbn. rewrite app_nil_r. reflexivity.
  - cbn [Main.rows_loop taken_rows]. fold (terminal row).
    destruct (terminal row).
    + cbn. rewrite app_nil_r. reflexivity.
    + cbn [flat_map]. unfold row_fragments, row_output.
      destruct (count BAN row =? 2)%nat.
      * rewrite IH, <- !app_assoc. reflexivity.
      * destruct (count BAN row =? 1)%nat.
        -- rewrite IH, <- !app_assoc. reflexivity.
        -- unfold write. cbn [bind]. rewrite IH. reflexivity.
Qed.

Lemma rows_loop_stop (rows1 : list str) (row : str) (rows2 : list str) :
  terminal row = true ->
  forall member_list,
    Main.rows_loop (rows1 ++ row :: rows2) member_list =
    Main.rows_loop rows1 member_list.
Proof.
  intros Hrow member_list. rewrite !rows_loop_spec.
  assert (H : taken_rows (rows1 ++ row :: rows2) = taken_rows rows1).
  { induction rows1 as [|r rows1 IH]; cbn [app taken_rows].
    - rewrite Hrow. reflexivity.
    - destruct (terminal r); [reflexivity | rewrite IH; reflexivity]. }
  rewrite H. reflexivity.
Qed.

(** ** The line-break pattern *)

Lemma single_sp : single (Alt (Lit SP) (Lit ZSP)) is_sp.
Proof. exact (single_Alt (@single_Lit SP) (@single_Lit ZSP)). Qed.

Lemma m_br_close (t : str) :
  m (Cat (Lit 62) Main.spaces) t (@Some str) = br_close t.
Proof.
  rewrite m_Cat, m_Lit. destruct t as [|x t]; [reflexivity|].
  cbn [step1 br_close]. destruct (x =? 62); [|reflexivity].
  unfold Main.spaces. rewrite (m_Star_single single_sp). apply greedy_Some.
Qed.

Lemma or_None (A : Type) (o : option A) :
  match o with
  | Some a => Some a
  | None => None
  end = o.
Proof. destruct o; reflexivity. Qed.

Lemma match_here_br (s : str) : match_here Main.br_line_pattern s = br_here s.
Proof.
  unfold match_here.
  change Main.br_line_pattern with
    (Cat Main.spaces
      (Cat (Lit 60)
        (Cat (Alt (Word [98; 114]) (Alt (Word [66; 82])
               (Alt (Word [98; 114; 32; 47]) (Word [66; 82; 32; 47]))))
             (Cat (Lit 62) Main.spaces)))).
  rewrite m_Cat. unfold Main.spaces at 1.
  rewrite (m_Star_single single_sp), greedy_commit.
  - unfold br_here. rewrite m_Cat, m_Lit.
    destruct (dropwhile is_sp s) as [|c s2]; [reflexivity|].
    cbn [step1]. destruct (c =? 60); [|reflexivity].
    rewrite m_Cat, !m_Alt, !m_Word.
    unfold br_tags. cbn [br_tag]. unfold br_try.
    rewrite !m_br_close, or_None. reflexivity.
  - intros x t Hx. rewrite m_Cat, m_Lit. cbn [step1].
    destruct (Z.eqb_spec x 60) as [->|]; [|reflexivity].
    vm_compute in Hx. discriminate.
Qed.

Lemma re_sub_Some (r : regex) (repl s rest : str) :
  match_here r s = Some rest ->
  (length rest < length s)%nat ->
  re_sub r repl s = repl ++ re_sub r repl rest.
Proof.
  destruct s as [|c s]; intros H Hl; [simpl in Hl; lia|].
  apply re_sub_cons_Some; [exact H | simpl in Hl; lia].
Qed.

Lemma br_tag_found (w b : str) :
  In w br_tags -> br_tag br_tags (w ++ 62 :: b) = Some (dropwhile is_sp b).
Proof.
  unfold br_tags. cbn [In].
  intros [<-|[<-|[<-|[<-|[]]]]]; reflexivity.
Qed.

Lemma startswith_true (s w : str) :
  startswith s w = true -> s = w ++ skipn (length w) s.
Proof.
  revert s. induction w as [|c w IH]; intros s H; [reflexivity|].
  destruct s as [|x s]; [discriminate|].
  rewrite startswith_cons in H. apply andb_true_iff in H.
  destruct H as [Hx H]. apply Z.eqb_eq in Hx. subst x.
  cbn [length skipn app]. f_equal. apply IH. exact H.
Qed.

Lemma br_try_Some (w s rest : str) :
  br_try w s = Some rest ->
  exists t, s = w ++ 62 :: t /\ rest = dropwhile is_sp t.
Proof.
  unfold br_try. destruct (startswith s w) eqn:E; [|discriminate].
  apply startswith_true in E. destruct (skipn (length w) s) as [|x t];
    [discriminate|].
  cbn [br_close]. destruct (Z.eqb_spec x 62) as [->|]; [|discriminate].
  intros H. injection H as <-. exists t. split; [exact E | reflexivity].
Qed.

Lemma br_tag_Some (ws : list str) (s rest : str) :
  br_tag ws s = Some rest ->
  exists w t, In w ws /\ s = w ++ 62 :: t /\ rest = dropwhile is_sp t.
Proof.
  induction ws as [|w ws IH]; [discriminate|]. cbn [br_tag].
  destruct (br_try w s) as [r|] eqn:E.
  - intros H. injection H as ->. apply br_try_Some in E.
    destruct E as (t & -> & ->).
    exists w, t. repeat split. left. reflexivity.
  - intros H. destruct (IH H) as (w' & t & Hin & -> & ->).
    exists w', t. repeat split. right. exact Hin.
Qed.

(** A match of the line-break pattern is not empty. *)
Lemma br_here_shorter (s rest : str) :
  br_here s = Some rest -> (length rest < length s)%nat.
Proof.
  unfold br_here. intros H.
  pose proof (dropwhile_length is_sp s) as Hl.
  destruct (dropwhile is_sp s) as [|c s2]; [discriminate|].
  destruct (c =? 60); [|discriminate].
  apply br_tag_Some in H. destruct H as (w & t & _ & -> & ->).
  pose proof (dropwhile_length is_sp t) as Hl'.
  cbn [length] in Hl. rewrite length_app in Hl. cbn [length] in Hl. lia.
Qed.

(** A match of the line-break pattern does not look past a line feed. *)
Lemma dropwhile_app_lf (t rest : str) :
  dropwhile is_sp (t ++ LF :: rest) = dropwhile is_sp t ++ LF :: rest.
Proof.
  induction t as [|x t IH]; [reflexivity|].
  cbn [app dropwhile]. destruct (is_sp x); [exact IH | reflexivity].
Qed.

Lemma startswith_app_lf (w : str) :
  ~ In LF w ->
  forall s rest, startswith (s ++ LF :: rest) w = startswith s w.
Proof.
  induction w as [|c w IH]; intros Hw s rest.
  - rewrite !startswith_nil. reflexivity.
  - destruct s as [|x s]; cbn [app]; rewrite startswith_cons.
    + destruct (Z.eqb_spec LF c) as [E|_]; [|reflexivity].
      exfalso. apply Hw. left. symmetry. exact E.
    + rewrite startswith_cons, IH; [reflexivity|].
      intros Hin. apply Hw. right. exact Hin.
Qed.

Lemma br_close_app_lf (t rest : str) :
  br_close (t ++ LF :: rest) = and_lf rest (br_close t).
Proof.
  destruct t as [|x t]; [reflexivity|]. cbn [app br_close].
  destruct (x =? 62); [|reflexivity].
  cbn [and_lf]. rewrite dropwhile_app_lf. reflexivity.
Qed.

Lemma br_try_app_lf (w s rest : str) :
  ~ In LF w -> br_try w (s ++ LF :: rest) = and_lf rest (br_try w s).
Proof.
  intros Hw. unfold br_try. rewrite startswith_app_lf by exact Hw.
  destruct (startswith s w) eqn:E; [|reflexivity].
  apply startswith_true in E. rewrite E at 1.
  rewrite <- app_assoc, skipn_app, skipn_all, Nat.sub_diag.
  cbn [app skipn]. apply br_close_app_lf.
Qed.

Lemma br_tag_app_lf (ws : list str) (s rest : str) :
  Forall (fun w => ~ In LF w) ws ->
  br_tag ws (s ++ LF :: rest) = and_lf rest (br_tag ws s).
Proof.
  induction 1 as [|w ws Hw _ IH]; [reflexivity|]. cbn [br_tag].
  rewrite br_try_app_lf by exact Hw.
  destruct (br_try w s); [reflexivity | exact IH].
Qed.

Lemma br_here_app_lf (s rest : str) :
  br_here (s ++ LF :: rest) = and_lf rest (br_here s).
Proof.
  unfold br_here. rewrite dropwhile_app_lf.
  destruct (dropwhile is_sp s) as [|c s2]; [reflexivity|].
  cbn [app]. destruct (c =? 60); [|reflexivity].
  apply br_tag_app_lf. unfold br_tags.
  repeat constructor; cbn [In]; intros H; repeat destruct H as [H|H];
    try discriminate; exact H.
Qed.

(** The first occurrence of a character splits a string in one way. *)
Lemma first_occurrence (x : char) (l1 : str) :
  forall l2 r1 r2,
    l1 ++ x :: r1 = l2 ++ x :: r2 -> ~ In x l1 -> ~ In x l2 ->
    l1 = l2 /\ r1 = r2.
Proof.
  induction l1 as [|a l1 IH]; intros [|b l2] r1 r2 H H1 H2; cbn [app] in H.
  - injection H as ->. split; reflexivity.
  - injection H as -> _. exfalso. apply H2. left. reflexivity.
  - injection H as -> _. exfalso. apply H1. left. reflexivity.
  - injection H as -> H. destruct (IH l2 r1 r2 H) as [-> ->].
    + intros Hin. apply H1. right. exact Hin.
    + intros Hin. apply H2. right. exact Hin.
    + split; reflexivity.
Qed.

(** A character that occurs once is found at one place only. *)
Lemma only_occurrence (x : char) (l1 : str) :
  forall l2 r1 r2,
    l1 ++ x :: r1 = l2 ++ x :: r2 -> ~ In x l2 -> ~ In x r2 ->
    l1 = l2 /\ r1 = r2.
Proof.
  induction l1 as [|a l1 IH]; intros [|b l2] r1 r2 H H1 H2; cbn [app] in H.
  - injection H as ->. split; reflexivity.
  - injection H as -> _. exfalso. apply H1. left. reflexivity.
  - injection H as -> H. exfalso. apply H2. rewrite <- H.
    apply in_or_app. right. left. reflexivity.
  - injection H as -> H. destruct (IH l2 r1 r2 H) as [-> ->].
    + intros Hin. apply H1. right. exact Hin.
    + exact H2.
    + split; reflexivity.
Qed.

Lemma spaces_no (x : char) (sp : str) :
  is_sp x = false -> forallb is_sp sp = true -> ~ In x sp.
Proof.
  intros Hx Hsp Hin. rewrite forallb_forall in Hsp.
  rewrite (Hsp x Hin) in Hx. discriminate.
Qed.

Lemma dropwhile_first (a rest : str) :
  a <> [] -> is_sp (last a 0) = false ->
  exists y t, dropwhile is_sp (a ++ rest) = y :: t /\ In y a.
Proof.
  induction a as [|x a IH]; intros Hne Hl; [congruence|].
  cbn [app dropwhile]. destruct (is_sp x) eqn:Ex.
  - destruct a as [|x' a].
    + cbn [last] in Hl. congruence.
    + destruct IH as (y & t & Hd & Hin); [discriminate | exact Hl|].
      exists y, t. split; [exact Hd | right; exact Hin].
  - exists x, (a ++ rest). split; [reflexivity | left; reflexivity].
Qed.

(** ** The section header *)

Lemma match_here_section (s : str) :
  match_here Main.re_section s =
  if startswith s shusseki
  then Some (dropwhile (fun x => negb (x =? LF)) (skipn 2 s))
  else None.
Proof.
  unfold match_here.
  change Main.re_section with (Cat (Word shusseki) (Star Dot)).
  rewrite m_Cat, m_Word. destruct (startswith s shusseki); [|reflexivity].
  rewrite (m_Star_single single_Dot). apply greedy_Some.
Qed.

Lemma infix_false (s p : str) :
  infix s p = false <->
  (forall pre suf, s = pre ++ suf -> startswith suf p = false).
Proof.
  induction s as [|c s IH]; split.
  - intros H pre suf E. symmetry in E. apply app_eq_nil in E.
    destruct E as [_ ->]. cbn [infix] in H. rewrite orb_false_r in H. exact H.
  - intros H. cbn [infix]. rewrite orb_false_r. apply (H [] []). reflexivity.
  - intros H pre suf E. rewrite infix_cons in H.
    apply orb_false_iff in H. destruct H as [H1 H2].
    destruct pre as [|x pre]; cbn [app] in E.
    + subst suf. exact H1.
    + injection E as -> ->. apply (proj1 IH H2 pre). reflexivity.
  - intros H. rewrite infix_cons. apply orb_false_iff. split.
    + apply (H []). reflexivity.
    + apply IH. intros pre suf E. apply (H (c :: pre)). rewrite E. reflexivity.
Qed.

Lemma search_section_None (s : str) :
  re_search Main.re_section s = None <-> infix s shusseki = false.
Proof.
  unfold re_search. rewrite search_from_None, infix_false.
  split; intros H pre suf E; specialize (H pre suf E).
  - rewrite match_here_section in H.
    destruct (startswith suf shusseki); [discriminate | reflexivity].
  - rewrite match_here_section, H. reflexivity.
Qed.

(** ** Text without the characters a step looks at *)

Lemma re_sub_br_plain (P t : str) :
  forallb (fun c => negb (is_sp c || (c =? 60))) P = true ->
  re_sub Main.br_line_pattern [] (P ++ t) =
  P ++ re_sub Main.br_line_pattern [] t.
Proof.
  induction P as [|c P IH]; intros H; [reflexivity|].
  cbn [forallb] in H. apply andb_true_iff in H. destruct H as [Hc H].
  apply negb_true_iff, orb_false_iff in Hc. destruct Hc as [Hsp Hlt].
  cbn [app]. rewrite re_sub_cons_None.
  - rewrite IH by exact H. reflexivity.
  - rewrite match_here_br. unfold br_here. cbn [dropwhile].
    rewrite Hsp, Hlt. reflexivity.
Qed.

Lemma crlf_cons_other (c : char) (s : str) :
  (c =? CR) = false -> crlf (c :: s) = c :: crlf s.
Proof.
  intros H. destruct s as [|d s]; [reflexivity|].
  rewrite crlf_cons2, H. reflexivity.
Qed.

Lemma crlf_plain (P t : str) :
  forallb (fun c => negb (c =? CR)) P = true -> crlf (P ++ t) = P ++ crlf t.
Proof.
  induction P as [|c P IH]; intros H; [reflexivity|].
  cbn [forallb] in H. apply andb_true_iff in H. destruct H as [Hc H].
  apply negb_true_iff in Hc. cbn [app].
  rewrite crlf_cons_other by exact Hc. rewrite IH by exact H. reflexivity.
Qed.

Lemma squeeze_app (P t : str) :
  forall b, squeeze b (P ++ t) = squeeze b P ++ squeeze (ends_lf b P) t.
Proof.
  induction P as [|c P IH]; intros b; [reflexivity|].
  cbn [app squeeze ends_lf]. destruct (c =? LF); [destruct b|];
    rewrite IH; reflexivity.
Qed.

Lemma split_nonempty (c : char) (s : str) : split c s <> [].
Proof.
  destruct s as [|x s]; cbn [split]; [discriminate|].
  destruct (x =? c); [discriminate|]. destruct (split c s); discriminate.
Qed.

Lemma split_app (c : char) (a b : str) :
  split c (a ++ c :: b) = split c a ++ split c b.
Proof.
  induction a as [|x a IH]; cbn [app split].
  - rewrite Z.eqb_refl. reflexivity.
  - destruct (x =? c); [rewrite IH; reflexivity|].
    rewrite IH. pose proof (split_nonempty c a) as Hne.
    destruct (split c a); [congruence | reflexivity].
Qed.

Lemma slice_from_0 (s : str) : slice_from 0 s = s.
Proof. reflexivity. Qed.

(** ** The end-to-end scenario *)

(** C1: a header line 出席議員, the line 1番山田花子さん, a blank line, the
    line ２番鈴木一郎君, a line ――――, then any trailing content: [parse]
    returns the two records (1, 山田花子) and (2, 鈴木一郎), in that order,
    and writes nothing to the diagnostic channel. *)
Theorem parse_scenario (trailing : str) :
  Main.parse (scenario ++ LF :: trailing) =
  ([], inr [ {| Main.number := U "1"; Main.name := U "山田花子" |};
             {| Main.number := U "2"; Main.name := U "鈴木一郎" |} ]).
Proof.
  unfold Main.parse, Main.reformat.
  set (P := scenario). vm_compute in P.
  rewrite re_sub_br_plain by reflexivity.
  rewrite replace_empty_line_spec.
  rewrite crlf_plain by reflexivity.
  rewrite squeeze_app.
  set (Q := squeeze false P). vm_compute in Q.
  change (ends_lf false P) with false.
  set (t := re_sub Main.br_line_pattern [] (LF :: trailing)).
  assert (Ht : exists t', squeeze false (crlf t) = LF :: t').
  { unfold t. rewrite re_sub_cons_None.
    - rewrite crlf_cons_other by reflexivity. cbn [squeeze].
      change (LF =? LF) with true. cbn iota. eexists. reflexivity.
    - rewrite match_here_br. reflexivity. }
  destruct Ht as (t' & ->).
  unfold re_search.
  erewrite search_from_head
    by (rewrite match_here_section; unfold Q; reflexivity).
  rewrite slice_from_0, split_app.
  set (rows := split LF Q). vm_compute in rows.
  change (tl (rows ++ split LF t'))
    with ([U "1番山田花子さん"; U "２番鈴木一郎君"] ++ U "――――" :: split LF t').
  rewrite rows_loop_stop by reflexivity.
  reflexivity.
Qed.

(** ** Line endings and blank lines *)

(** C7 fails on the code: for CR CR LF one application leaves CR LF, which
    the second application turns into LF. *)
Lemma replace_empty_line_not_idempotent :
  Main.replace_empty_line (Main.replace_empty_line [CR; CR; LF])
  <> Main.replace_empty_line [CR; CR; LF].
Proof. vm_compute. discriminate. Qed.

(** C7, amended: [replace_empty_line] applied twice gives the same string
    as applied once exactly for the strings that do not contain the
    sequence CR CR LF. *)
Theorem replace_empty_line_idempotent_iff (s : str) :
  Main.replace_empty_line (Main.replace_empty_line s)
  = Main.replace_empty_line s
  <-> infix s [CR; CR; LF] = false.
Proof.
  rewrite !replace_empty_line_spec. split.
  - intros H. destruct (infix s [CR; CR; LF]) eqn:E; [|reflexivity].
    exfalso. apply crlf_keeps_crcrlf in E.
    apply (squeeze_keeps_crlf _ false) in E. apply crlf_shrinks in E.
    pose proof (squeeze_length (crlf (squeeze false (crlf s))) false) as Hl.
    rewrite H in Hl. lia.
  - intros H. apply crlf_no_crlf in H.
    apply (squeeze_no_crlf _ false) in H.
    rewrite (crlf_id _ H). apply squeeze_idem. intros E. exact E.
Qed.

Lemma replace_empty_line_idempotent_witness :
  Main.replace_empty_line
    (Main.replace_empty_line [65; CR; LF; CR; LF; LF; 66; CR; 67])
  = Main.replace_empty_line [65; CR; LF; CR; LF; LF; 66; CR; 67].
Proof.
  apply (proj2 (replace_empty_line_idempotent_iff
                  [65; CR; LF; CR; LF; LF; 66; CR; 67])).
  reflexivity.
Defined.

(** ** [parse] as a whole *)

Lemma parse_eq (doc : str) :
  Main.parse doc =
  match re_search Main.re_section (Main.reformat doc) with
  | None => ([], inl AttributeError)
  | Some (st, _) =>
      let body := slice_from st (Main.reformat doc) in
      let (out, r) :=
        mapM (fun member =>
                lift (Main.remove_number_honorific (Main.strip_spaces member)))
             (section_fragments body) in
      (section_output body ++ out, r)
  end.
Proof.
  unfold Main.parse.
  destruct (re_search Main.re_section (Main.reformat doc)) as [[st en]|];
    [|reflexivity].
  rewrite rows_loop_spec. reflexivity.
Qed.

(** C2 fails on the code: the row 1番 has one 番 with a digit before it,
    and its record has an empty name. *)
Lemma parse_empty_name :
  count BAN (U "1番") = 1%nat /\
  number_marker (U "1番") /\
  Main.parse (U "出席" ++ [LF] ++ U "1番") =
  ([], inr [ {| Main.number := U "1"; Main.name := [] |} ]).
Proof.
  split; [reflexivity|]. split; [|vm_compute; reflexivity].
  exists [], 49, []. split; reflexivity.
Qed.

(** C8 fails on the code: a row that is 番 alone passes the row
    classification and has no number marker; neither has the left half of
    the two-marker row 1番2番. *)
Lemma parse_malformed_fragment :
  section_fragments (slice_from 0 (Main.reformat (U "出席" ++ [LF] ++ U "番")))
  = [U "番"] /\
  ~ number_marker (Main.strip_spaces (U "番")) /\
  Main.parse (U "出席" ++ [LF] ++ U "番") = ([], inl AttributeError) /\
  section_fragments
    (slice_from 0 (Main.reformat (U "出席" ++ [LF] ++ U "1番2番")))
  = [U "1"; U "番2番"] /\
  ~ number_marker (Main.strip_spaces (U "1")) /\
  Main.parse (U "出席" ++ [LF] ++ U "1番2番") = ([], inl AttributeError).
Proof.
  repeat split; try (vm_compute; reflexivity);
    apply remove_number_honorific_inl; vm_compute; reflexivity.
Qed.

(** C8, amended: once the section header is found, [parse] takes the
    failure branch of [remove_number_honorific] exactly when one of the
    fragments that the row classification passes on has, after its spaces
    are removed, no 番 with a character of [[0-9|０-９]] directly before
    it. *)
Theorem parse_fragment_failure (doc : str) (st en : Z) :
  re_search Main.re_section (Main.reformat doc) = Some (st, en) ->
  ((exists out, Main.parse doc = (out, inl AttributeError)) <->
   (exists f, In f (section_fragments (slice_from st (Main.reformat doc))) /\
              ~ number_marker (Main.strip_spaces f))).
Proof.
  intros Hs. rewrite parse_eq, Hs. cbv zeta.
  set (frags := section_fragments _).
  set (g := fun member => Main.remove_number_honorific (Main.strip_spaces member)).
  change (fun member => lift (Main.remove_number_honorific (Main.strip_spaces member)))
    with (fun member => lift (g member)).
  split.
  - intros (out & H).
    destruct (mapM (fun member => lift (g member)) frags) as [out' r] eqn:E.
    injection H as _ ->. apply mapM_lift_inl in E.
    destruct E as [_ (f & Hin & Hf)]. exists f. split; [exact Hin|].
    apply remove_number_honorific_inl. exact Hf.
  - intros (f & Hin & Hf). apply remove_number_honorific_inl in Hf.
    destruct (mapM_lift_fails g frags f Hin Hf) as (e & E).
    rewrite E. pose proof E as E'. apply mapM_lift_inl in E'.
    destruct E' as [_ (f' & _ & Hf')].
    apply remove_number_honorific_exn in Hf'. subst e.
    eexists. reflexivity.
Qed.

Lemma parse_fragment_failure_witness :
  (exists out, Main.parse (U "出席" ++ [LF] ++ U "番")
               = (out, inl AttributeError)) <->
  (exists f,
      In f (section_fragments
              (slice_from 0 (Main.reformat (U "出席" ++ [LF] ++ U "番")))) /\
      ~ number_marker (Main.strip_spaces f)).
Proof.
  apply (@parse_fragment_failure (U "出席" ++ [LF] ++ U "番") 0 2).
  vm_compute. reflexivity.
Defined.

(** C10 fails on the code: the document 出<br>席 has no occurrence of 出席,
    and [parse] returns the empty roster for it, because the header is
    looked for after the line-break markers are removed. *)
Lemma parse_section_after_reformat :
  infix (U "出<br>席") shusseki = false /\
  Main.parse (U "出<br>席") = ([], inr []).
Proof. split; vm_compute; reflexivity. Qed.

(** C10, amended: for every document whose text after the format change
    (line-break markers removed, line endings unified, blank lines
    collapsed) has no occurrence of 出席, [parse] returns no roster: the
    search fails and [parse] ends with an [AttributeError]. *)
Theorem parse_no_section (doc : str) :
  infix (Main.reformat doc) shusseki = false ->
  Main.parse doc = ([], inl AttributeError).
Proof.
  intros H. apply search_section_None in H.
  unfold Main.parse. rewrite H. reflexivity.
Qed.

Lemma parse_no_section_witness :
  Main.parse (U "欠席議員" ++ [LF] ++ U "1番山田花子さん")
  = ([], inl AttributeError).
Proof.
  apply (@parse_no_section (U "欠席議員" ++ [LF] ++ U "1番山田花子さん")).
  vm_compute. reflexivity.
Defined.

(** ** Fragments *)

(** C5: the code returns the name 佐藤くん for the fragment ３番佐藤くん: the
    full-width digit becomes 3, the suffix くん stays (only 議員, さん and
    君 are removed). *)
Theorem remove_number_honorific_kun_hiragana :
  Main.remove_number_honorific (U "３番佐藤くん") =
  inr {| Main.number := U "3"; Main.name := U "佐藤くん" |}.
Proof. vm_compute. reflexivity. Qed.

(** C6: the code returns the number | for the fragment |番山田, since the
    bar is a member of the character class of [re_number]. *)
Theorem remove_number_honorific_bar :
  Main.remove_number_honorific (U "|番山田") =
  inr {| Main.number := U "|"; Main.name := U "山田" |}.
Proof. vm_compute. reflexivity. Qed.

(** The number consists of ASCII digits and bars; [zen_to_han] is only
    applied to characters of the class. *)
Lemma number_chars (f : str) (r : Main.member) :
  Main.remove_number_honorific f = inr r ->
  Forall (fun c => 48 <= c <= 57 \/ c = 124) (Main.number r).
Proof.
  intros H. apply remove_number_honorific_inr in H.
  destruct H as (pre & run & rest & _ & _ & Hall & -> & _).
  unfold Main.zen_to_han. apply Forall_map, Forall_forall. intros c Hc.
  rewrite forallb_forall in Hall. specialize (Hall c Hc).
  unfold is_numchar, in_class in Hall. cbn [existsb fst snd] in Hall.
  unfold Main.zen_to_han_char.
  destruct ((65296 <=? c) && (c <=? 65305)) eqn:E; lia.
Qed.

(** ** Encoding labels *)

Lemma str_eqb_eq (a b : str) : str_eqb a b = true <-> a = b.
Proof.
  revert b. induction a as [|x a IH]; intros [|y b]; cbn [str_eqb];
    split; intros H; try reflexivity; try discriminate.
  - apply andb_true_iff in H. destruct H as [Hx H].
    apply Z.eqb_eq in Hx. apply IH in H. subst. reflexivity.
  - injection H as -> ->. rewrite Z.eqb_refl. apply IH. reflexivity.
Qed.

Lemma str_eqb_neq (a b : str) : str_eqb a b = false <-> a <> b.
Proof.
  destruct (str_eqb a b) eqn:E; split; intros H; try reflexivity;
    try discriminate.
  - apply str_eqb_eq in E. contradiction.
  - intros ->. assert (H' : str_eqb b b = true) by (apply str_eqb_eq; reflexivity).
    congruence.
Qed.

(** C3 fails on the code: with cp932 among the labels the result is the
    upper-case string CP932, and a shift_jis label is not preferred: the
    call ends with a [ValueError]. *)
Lemma det_encoding_legacy_labels :
  lower (U "cp932") <> lower (U "utf-8") /\
  Main.det_encoding (U "res/higashiomi.html") (Some (U "cp932")) (U "utf-8")
  = ([Main.conflict_warning (U "cp932") (U "utf-8")], inr (U "CP932")) /\
  U "CP932" <> U "cp932" /\
  lower (U "shift_jis") <> lower (U "utf-8") /\
  Main.det_encoding (U "res/higashiomi.html") (Some (U "shift_jis")) (U "utf-8")
  = ([Main.conflict_warning (U "shift_jis") (U "utf-8")],
     inl (ValueError [Main.unsupported_message; U "res/higashiomi.html"])).
Proof. repeat split; vm_compute; discriminate || reflexivity. Qed.

(** C3, amended: when the two labels differ after lowercasing and one of
    them is then cp932, [det_encoding] writes one warning with both
    lowercased labels and returns the fixed string CP932. *)
Theorem det_encoding_cp932 (file_path encoding nkf_guess : str) :
  lower encoding <> lower nkf_guess ->
  lower encoding = Main.cp932 \/ lower nkf_guess = Main.cp932 ->
  Main.det_encoding file_path (Some encoding) nkf_guess =
  ([Main.conflict_warning (lower encoding) (lower nkf_guess)],
   inr Main.CP932).
Proof.
  intros Hne Hcp. unfold Main.det_encoding.
  apply str_eqb_neq in Hne. rewrite Hne. cbn [negb].
  assert (E : str_eqb Main.cp932 (lower encoding)
              || str_eqb Main.cp932 (lower nkf_guess) = true).
  { apply orb_true_iff.
    destruct Hcp as [H|H]; [left | right]; apply str_eqb_eq; symmetry;
      exact H. }
  rewrite E. reflexivity.
Qed.

Lemma det_encoding_cp932_witness :
  Main.det_encoding (U "res/higashiomi.html") (Some (U "UTF-8")) (U "CP932")
  = ([Main.conflict_warning (lower (U "UTF-8")) (lower (U "CP932"))],
     inr Main.CP932).
Proof.
  apply (@det_encoding_cp932 (U "res/higashiomi.html") (U "UTF-8") (U "CP932")).
  - vm_compute. discriminate.
  - right. vm_compute. reflexivity.
Defined.

(** C4 fails on the code: the [ValueError] carries a message and the file
    path; neither candidate label is among its arguments. *)
Lemma det_encoding_error_arguments :
  lower (U "utf-8") <> lower (U "euc-jp") /\
  lower (U "utf-8") <> Main.cp932 /\ lower (U "euc-jp") <> Main.cp932 /\
  Main.det_encoding (U "res/higashiomi.html") (Some (U "utf-8")) (U "euc-jp")
  = ([Main.conflict_warning (U "utf-8") (U "euc-jp")],
     inl (ValueError [Main.unsupported_message; U "res/higashiomi.html"])) /\
  ~ In (U "utf-8") [Main.unsupported_message; U "res/higashiomi.html"] /\
  ~ In (U "euc-jp") [Main.unsupported_message; U "res/higashiomi.html"].
Proof.
  repeat split; try (vm_compute; reflexivity);
    try (vm_compute; discriminate);
    vm_compute; intros [H|[H|[]]]; discriminate.
Qed.

(** C4, amended: when the two labels differ after lowercasing and neither
    is then cp932, [det_encoding] writes one warning with both lowercased
    labels and fails with a [ValueError] whose arguments are a fixed
    message and the file path. *)
Theorem det_encoding_unsupported (file_path encoding nkf_guess : str) :
  lower encoding <> lower nkf_guess ->
  lower encoding <> Main.cp932 ->
  lower nkf_guess <> Main.cp932 ->
  Main.det_encoding file_path (Some encoding) nkf_guess =
  ([Main.conflict_warning (lower encoding) (lower nkf_guess)],
   inl (ValueError [Main.unsupported_message; file_path])).
Proof.
  intros Hne H1 H2. unfold Main.det_encoding.
  apply str_eqb_neq in Hne. rewrite Hne. cbn [negb].
  assert (E : str_eqb Main.cp932 (lower encoding)
              || str_eqb Main.cp932 (lower nkf_guess) = false).
  { apply orb_false_iff. split; apply str_eqb_neq; congruence. }
  rewrite E. reflexivity.
Qed.

Lemma det_encoding_unsupported_witness :
  Main.det_encoding (U "res/higashiomi.html") (Some (U "utf-8")) (U "EUC-JP")
  = ([Main.conflict_warning (lower (U "utf-8")) (lower (U "EUC-JP"))],
     inl (ValueError [Main.unsupported_message; U "res/higashiomi.html"])).
Proof.
  apply (@det_encoding_unsupported (U "res/higashiomi.html") (U "utf-8")
           (U "EUC-JP")); vm_compute; discriminate.
Defined.

(** ** Line-break markers *)

(** C9 fails on the code: on a line of its own, a marker in another casing
    or with the slash directly after the name stays. *)
Lemma strip_br_examples :
  strip_br (U "<Br>") = U "<Br>" /\
  strip_br (U "<br/>") = U "<br/>".
Proof. repeat split; vm_compute; reflexivity. Qed.

(** The pattern has no line anchors: a marker after content on the same
    line is removed as well, with the spaces around it. *)
Lemma strip_br_embedded :
  strip_br (U "1番山田 <br>2番鈴木") = U "1番山田2番鈴木".
Proof. vm_compute. reflexivity. Qed.

Lemma strip_br_found (a sp1 w b : str) :
  In w br_tags -> ~ In 60 a -> is_sp (last a 0) = false ->
  forallb is_sp sp1 = true ->
  strip_br (a ++ sp1 ++ 60 :: w ++ 62 :: b) = a ++ strip_br (dropwhile is_sp b).
Proof.
  unfold strip_br. intros Hw Ha Hl Hsp.
  induction a as [|x a IH].
  - cbn [app]. apply (@re_sub_Some _ []).
    + rewrite match_here_br. unfold br_here.
      rewrite dropwhile_app by exact Hsp. cbn [dropwhile].
      change (is_sp 60) with false. cbn iota.
      change (60 =? 60) with true. cbn iota.
      apply br_tag_found. exact Hw.
    + pose proof (dropwhile_length is_sp b).
      rewrite length_app. cbn [length]. rewrite length_app. cbn [length]. lia.
  - cbn [app]. rewrite re_sub_cons_None.
    + f_equal. apply IH.
      * intros Hin. apply Ha. right. exact Hin.
      * destruct a as [|y a]; [reflexivity | exact Hl].
    + rewrite match_here_br. unfold br_here.
      change (x :: a ++ sp1 ++ 60 :: w ++ 62 :: b)
        with ((x :: a) ++ sp1 ++ 60 :: w ++ 62 :: b).
      destruct (@dropwhile_first (x :: a) (sp1 ++ 60 :: w ++ 62 :: b))
        as (y & t & -> & Hy); [discriminate | exact Hl|].
      destruct (Z.eqb_spec y 60) as [->|]; [contradiction | reflexivity].
Qed.

Lemma strip_br_kept (sp1 tag sp2 : str) :
  forallb is_sp sp1 = true -> forallb is_sp sp2 = true ->
  ~ In 60 tag -> ~ In 62 tag -> ~ In tag br_tags ->
  strip_br (sp1 ++ 60 :: tag ++ 62 :: sp2) = sp1 ++ 60 :: tag ++ 62 :: sp2.
Proof.
  intros Hsp1 Hsp2 H60 H62 Htag. unfold strip_br.
  apply re_sub_no_match. intros pre suf E.
  rewrite match_here_br. unfold br_here.
  destruct (dropwhile is_sp suf) as [|c s2] eqn:Ed; [reflexivity|].
  destruct (Z.eqb_spec c 60) as [->|]; [|reflexivity].
  destruct (br_tag br_tags s2) as [rest|] eqn:Et; [|reflexivity].
  exfalso. apply br_tag_Some in Et. destruct Et as (w & t & Hw & -> & _).
  rewrite <- (take_drop is_sp suf), Ed, app_assoc in E. symmetry in E.
  apply only_occurrence in E.
  - destruct E as [_ E]. apply first_occurrence in E.
    + destruct E as [-> _]. contradiction.
    + unfold br_tags in Hw. cbn [In] in Hw.
      destruct Hw as [<-|[<-|[<-|[<-|[]]]]];
        cbn [In]; intros H; repeat destruct H as [H|H]; try discriminate;
        exact H.
    + exact H62.
  - apply spaces_no; [reflexivity | exact Hsp1].
  - intros Hin. apply in_app_or in Hin. destruct Hin as [Hin|Hin];
      [contradiction|].
    destruct Hin as [Hin|Hin]; [discriminate|].
    revert Hin. apply spaces_no; [reflexivity | exact Hsp2].
Qed.

(** The lines of a document are treated one by one. *)
Lemma strip_br_lines (s rest : str) :
  strip_br (s ++ LF :: rest) = strip_br s ++ LF :: strip_br rest.
Proof.
  remember (length s) as n eqn:Hn.
  revert s Hn. induction n as [n IH] using lt_wf_ind. intros s Hn.
  unfold strip_br in *. destruct s as [|c s].
  - cbn [app]. rewrite re_sub_cons_None by (rewrite match_here_br; reflexivity).
    rewrite re_sub_nil by (rewrite match_here_br; reflexivity). reflexivity.
  - pose proof (br_here_app_lf (c :: s) rest) as Happ.
    destruct (br_here (c :: s)) as [r|] eqn:Er; cbn [and_lf] in Happ.
    + pose proof (br_here_shorter _ Er) as Hr.
      rewrite (@re_sub_Some _ [] ((c :: s) ++ LF :: rest) (r ++ LF :: rest))
        by first [ rewrite match_here_br; exact Happ
                 | rewrite !length_app; cbn [length] in *; lia ].
      rewrite (@re_sub_Some _ [] (c :: s) r)
        by first [ rewrite match_here_br; exact Er | exact Hr ].
      cbn [app]. apply (IH (length r)); [lia | reflexivity].
    + cbn [app] in *.
      rewrite !re_sub_cons_None by (rewrite match_here_br; assumption).
      cbn [app]. f_equal.
      apply (IH (length s)); [subst n; simpl; lia | reflexivity].
Qed.

Lemma strip_br_line (sp1 w sp2 : str) :
  forallb is_sp sp1 = true -> forallb is_sp sp2 = true -> In w br_tags ->
  strip_br (sp1 ++ 60 :: w ++ 62 :: sp2) = [].
Proof.
  intros Hsp1 Hsp2 Hw.
  pose proof (@strip_br_found [] sp1 w sp2 Hw (fun H => H) eq_refl Hsp1) as H.
  cbn [app] in H. rewrite H.
  replace (dropwhile is_sp sp2) with (@nil char); [reflexivity|].
  rewrite <- (app_nil_r sp2), dropwhile_app by exact Hsp2. reflexivity.
Qed.

(** C9, amended: the step treats the lines of a document one by one, and it
    empties a line that consists of ASCII or full-width spaces around one
    marker exactly when the text between [<] and [>] is br, BR, br / or
    BR /: such a line with any other text (free of [<] and [>]) between
    [<] and [>] stays as it is. *)
Theorem strip_br_spec :
  (forall s rest,
      strip_br (s ++ LF :: rest) = strip_br s ++ LF :: strip_br rest) /\
  (forall sp1 tag sp2,
      forallb is_sp sp1 = true -> forallb is_sp sp2 = true ->
      ~ In LT tag -> ~ In GT tag ->
      strip_br (sp1 ++ LT :: tag ++ GT :: sp2) =
      if existsb (str_eqb tag) br_tags then []
      else sp1 ++ LT :: tag ++ GT :: sp2).
Proof.
  split; [exact strip_br_lines|].
  intros sp1 tag sp2 Hsp1 Hsp2 Hlt Hgt.
  destruct (existsb (str_eqb tag) br_tags) eqn:E.
  - apply existsb_exists in E. destruct E as (w & Hw & E).
    apply str_eqb_eq in E. subst w. apply strip_br_line; assumption.
  - apply strip_br_kept; try assumption.
    intros Hin. assert (E' : existsb (str_eqb tag) br_tags = true).
    { apply existsb_exists. exists tag. split; [exact Hin|].
      apply str_eqb_eq. reflexivity. }
    congruence.
Qed.

Lemma strip_br_spec_witness :
  strip_br ([SP; ZSP] ++ LT :: U "BR /" ++ GT :: [ZSP]) = [] /\
  strip_br ([ZSP] ++ LT :: U "Br" ++ GT :: [SP])
  = [ZSP] ++ LT :: U "Br" ++ GT :: [SP].
Proof.
  split.
  - apply (proj2 strip_br_spec [SP; ZSP] (U "BR /") [ZSP]).
    + reflexivity.
    + reflexivity.
    + vm_compute. intros [H|[H|[H|[H|[]]]]]; discriminate.
    + vm_compute. intros [H|[H|[H|[H|[]]]]]; discriminate.
  - apply (proj2 strip_br_spec [ZSP] (U "Br") [SP]).
    + reflexivity.
    + reflexivity.
    + vm_compute. intros [H|[H|[]]]; discriminate.
    + vm_compute. intros [H|[H|[]]]; discriminate.
Defined.

(** * Further properties of the program *)

(** ** [replace_empty_line] *)

Lemma squeeze_true_head (s : str) : startswith (squeeze true s) [LF] = false.
Proof.
  induction s as [|c s IH]; [reflexivity|]. cbn [squeeze].
  destruct (c =? LF) eqn:E; [exact IH|].
  rewrite startswith_cons, E. reflexivity.
Qed.

Lemma squeeze_no_blank (s : str) :
  forall b, infix (squeeze b s) [LF; LF] = false.
Proof.
  induction s as [|c s IH]; intros b; [reflexivity|]. cbn [squeeze].
  destruct (c =? LF) eqn:E.
  - destruct b; [apply IH|].
    rewrite infix_cons, startswith_cons, squeeze_true_head, IH.
    rewrite andb_false_r. reflexivity.
  - rewrite infix_cons, startswith_cons, E, IH. reflexivity.
Qed.

(** The result has no blank line: no two line feeds in a row. *)
Theorem replace_empty_line_no_blank (s : str) :
  infix (Main.replace_empty_line s) [LF; LF] = false.
Proof. rewrite replace_empty_line_spec. apply squeeze_no_blank. Qed.

Lemma squeeze_id (s : str) :
  forall b, infix s [LF; LF] = false ->
    (b = true -> startswith s [LF] = false) -> squeeze b s = s.
Proof.
  induction s as [|c s IH]; intros b H Hb; [reflexivity|].
  rewrite infix_cons in H. apply orb_false_iff in H. destruct H as [H1 H2].
  cbn [squeeze]. destruct (Z.eqb_spec c LF) as [->|Hc].
  - rewrite startswith_cons in H1. change (LF =? LF) with true in H1.
    cbn [andb] in H1. destruct b.
    + specialize (Hb eq_refl). rewrite startswith_cons in Hb.
      change (LF =? LF) with true in Hb. rewrite startswith_nil in Hb.
      discriminate.
    + f_equal. apply IH; [exact H2 | intros _; exact H1].
  - f_equal. apply IH; [exact H2 | discriminate].
Qed.

(** The strings that [replace_empty_line] leaves as they are: those with
    no CR LF and no blank line. *)
Theorem replace_empty_line_fixed_iff (s : str) :
  Main.replace_empty_line s = s <->
  infix s [CR; LF] = false /\ infix s [LF; LF] = false.
Proof.
  split.
  - intros H. split.
    + destruct (infix s [CR; LF]) eqn:E; [|reflexivity]. exfalso.
      apply crlf_shrinks in E.
      pose proof (squeeze_length (crlf s) false) as Hl.
      rewrite <- replace_empty_line_spec, H in Hl. lia.
    + rewrite <- H. apply replace_empty_line_no_blank.
  - intros [H1 H2]. rewrite replace_empty_line_spec, (crlf_id _ H1).
    apply squeeze_id; [exact H2 | discriminate].
Qed.

(** The result contains CR LF exactly when the argument contains
    CR CR LF. *)
Theorem replace_empty_line_crlf (s : str) :
  infix (Main.replace_empty_line s) [CR; LF] = infix s [CR; CR; LF].
Proof.
  rewrite replace_empty_line_spec.
  destruct (infix s [CR; CR; LF]) eqn:E.
  - apply squeeze_keeps_crlf, crlf_keeps_crcrlf. exact E.
  - apply squeeze_no_crlf, crlf_no_crlf. exact E.
Qed.

Lemma crlf_content (s : str) : filter is_content (crlf s) = filter is_content s.
Proof.
  remember (length s) as n eqn:Hn.
  revert s Hn. induction n as [n IH] using lt_wf_ind. intros s Hn.
  destruct s as [|c [|d s]]; [reflexivity | reflexivity |].
  rewrite crlf_cons2. destruct ((c =? CR) && (d =? LF)) eqn:E.
  - apply andb_true_iff in E. destruct E as [Ec Ed].
    apply Z.eqb_eq in Ec, Ed. subst c d. cbn [filter].
    change (is_content LF) with false. change (is_content CR) with false.
    cbn iota. apply (IH (length s)); [subst n; simpl; lia | reflexivity].
  - cbn [filter]. rewrite (IH (length (d :: s))) with (s := d :: s);
      [reflexivity | subst n; simpl; lia | reflexivity].
Qed.

Lemma squeeze_content (s : str) :
  forall b, filter is_content (squeeze b s) = filter is_content s.
Proof.
  induction s as [|c s IH]; intros b; [reflexivity|]. cbn [squeeze filter].
  destruct (Z.eqb_spec c LF) as [->|Hc].
  - change (is_content LF) with false. cbn iota. destruct b; [apply IH|].
    cbn [filter]. change (is_content LF) with false. cbn iota. apply IH.
  - cbn [filter]. rewrite IH. reflexivity.
Qed.

Lemma deleted_trans (p : char -> bool) (a b : str) :
  deleted p a b -> forall c, deleted p b c -> deleted p a c.
Proof.
  induction 1 as [|x a b _ IH|x a b Hx _ IH]; intros c Hc.
  - exact Hc.
  - inversion Hc as [|y b' c' Hc'|y b' c' Hy Hc']; subst.
    + apply deleted_keep. apply IH. exact Hc'.
    + apply deleted_drop; [exact Hy|]. apply IH. exact Hc'.
  - apply deleted_drop; [exact Hx|]. apply IH. exact Hc.
Qed.

Lemma crlf_deleted (s : str) : deleted is_line_end s (crlf s).
Proof.
  remember (length s) as n eqn:Hn.
  revert s Hn. induction n as [n IH] using lt_wf_ind. intros s Hn.
  destruct s as [|c [|d s]].
  - constructor.
  - cbn [crlf]. repeat constructor.
  - rewrite crlf_cons2. destruct ((c =? CR) && (d =? LF)) eqn:E.
    + apply andb_true_iff in E. destruct E as [Ec Ed].
      apply Z.eqb_eq in Ec, Ed. subst c d.
      apply deleted_drop; [reflexivity|]. apply deleted_keep.
      apply (IH (length s)); [subst n; simpl; lia | reflexivity].
    + apply deleted_keep.
      apply (IH (length (d :: s))); [subst n; simpl; lia | reflexivity].
Qed.

Lemma squeeze_deleted (s : str) :
  forall b, deleted is_line_end s (squeeze b s).
Proof.
  induction s as [|c s IH]; intros b; [constructor|]. cbn [squeeze].
  destruct (Z.eqb_spec c LF) as [->|Hc].
  - destruct b; [apply deleted_drop; [reflexivity | apply IH]|].
    apply deleted_keep. apply IH.
  - apply deleted_keep. apply IH.
Qed.

(** [replace_empty_line] only deletes line-ending characters: its result
    is the argument with some CR and LF taken out and everything else left
    in place; so the characters other than CR and LF come out as they went
    in, in the same order, and the result is never longer than the
    argument. *)
Theorem replace_empty_line_content (s : str) :
  deleted is_line_end s (Main.replace_empty_line s) /\
  filter is_content (Main.replace_empty_line s) = filter is_content s /\
  (length (Main.replace_empty_line s) <= length s)%nat.
Proof.
  rewrite replace_empty_line_spec. split; [|split].
  - apply (deleted_trans (crlf_deleted s)). apply squeeze_deleted.
  - rewrite squeeze_content. apply crlf_content.
  - pose proof (squeeze_length (crlf s) false). pose proof (crlf_length s). lia.
Qed.

Lemma replace_empty_line_fixed_witness :
  Main.replace_empty_line (U "出席議員" ++ [LF] ++ U "1番山田" ++ [CR])
  = U "出席議員" ++ [LF] ++ U "1番山田" ++ [CR].
Proof.
  apply (proj2 (replace_empty_line_fixed_iff
                  (U "出席議員" ++ [LF] ++ U "1番山田" ++ [CR]))).
  split; vm_compute; reflexivity.
Defined.

(** ** [det_encoding] *)

Lemma lower_idem (s : str) : lower (lower s) = lower s.
Proof.
  unfold lower. rewrite map_map. apply map_ext. intros c.
  unfold lower_char.
  destruct ((65 <=? c) && (c <=? 90)) eqn:E.
  - destruct ((65 <=? c + 32) && (c + 32 <=? 90)) eqn:E'; lia.
  - rewrite E. reflexivity.
Qed.

(** When the two labels agree after lowercasing, [det_encoding] returns the
    lowercased label and writes nothing. *)
Theorem det_encoding_agree (file_path encoding nkf_guess : str) :
  lower encoding = lower nkf_guess ->
  Main.det_encoding file_path (Some encoding) nkf_guess
  = ([], inr (lower encoding)).
Proof.
  intros H. unfold Main.det_encoding.
  apply str_eqb_eq in H. rewrite H. reflexivity.
Qed.

Lemma det_encoding_agree_witness :
  Main.det_encoding (U "res/otsu.html") (Some (U "UTF-8")) (U "utf-8")
  = ([], inr (lower (U "UTF-8"))).
Proof.
  apply (@det_encoding_agree (U "res/otsu.html") (U "UTF-8") (U "utf-8")).
  vm_compute. reflexivity.
Defined.

(** The case of the detectors' answers does not matter. *)
Theorem det_encoding_case (file_path encoding nkf_guess : str) :
  Main.det_encoding file_path (Some encoding) nkf_guess
  = Main.det_encoding file_path (Some (lower encoding)) (lower nkf_guess).
Proof. unfold Main.det_encoding. rewrite !lower_idem. reflexivity. Qed.

(** With an answer from chardet, [det_encoding] writes a warning exactly
    when the lowercased labels differ, and then a single one; it fails
    exactly when they differ and neither is cp932, and a label it returns
    is the common lowercased label or CP932. *)
Theorem det_encoding_outcome (file_path encoding nkf_guess : str) :
  let r := Main.det_encoding file_path (Some encoding) nkf_guess in
  (fst r = [] <-> lower encoding = lower nkf_guess) /\
  (length (fst r) <= 1)%nat /\
  ((exists e, snd r = inl e) <->
   lower encoding <> lower nkf_guess /\
   lower encoding <> Main.cp932 /\ lower nkf_guess <> Main.cp932) /\
  (forall label, snd r = inr label ->
     label = Main.CP932 \/
     (label = lower encoding /\ lower encoding = lower nkf_guess)).
Proof.
  cbv zeta. unfold Main.det_encoding.
  destruct (str_eqb (lower encoding) (lower nkf_guess)) eqn:E.
  - apply str_eqb_eq in E. cbn.
    split; [|split; [|split]].
    + split; intros _; [exact E | reflexivity].
    + lia.
    + split; [intros (e & H); discriminate | intros (H & _); contradiction].
    + intros label H. injection H as <-. right. split; [reflexivity|exact E].
  - apply str_eqb_neq in E. cbn [negb].
    destruct (str_eqb Main.cp932 (lower encoding)
              || str_eqb Main.cp932 (lower nkf_guess)) eqn:E1; cbn.
    + split; [|split; [|split]].
      * split; [discriminate | intros H; contradiction].
      * lia.
      * split; [intros (e & H); discriminate|].
        intros (_ & H1 & H2). apply orb_true_iff in E1.
        destruct E1 as [E1|E1]; apply str_eqb_eq in E1; congruence.
      * intros label H. injection H as <-. left. reflexivity.
    + apply orb_false_iff in E1. destruct E1 as [E1 E2].
      apply str_eqb_neq in E1, E2.
      split; [|split; [|split]].
      * split; [discriminate | intros H; contradiction].
      * lia.
      * split; [|intros _; eexists; reflexivity].
        intros _. repeat split; congruence.
      * intros label H. discriminate.
Qed.

(** ** The row loop of [parse] *)

Lemma single_dash : single (Alt (Lit 8213) (Lit 65293)) is_dash.
Proof. exact (single_Alt (@single_Lit 8213) (@single_Lit 65293)). Qed.

(** The rule pattern on a whole row. *)
Lemma re_fullmatch_rule_eq (row : str) :
  re_fullmatch Main.re_rule row =
  match dropwhile is_zsp row with
  | x :: s1 =>
      is_dash x && match dropwhile is_dash s1 with [] => true | _ :: _ => false end
  | [] => false
  end.
Proof.
  unfold re_fullmatch.
  change Main.re_rule with
    (Cat (Star (Lit ZSP))
         (Cat (Alt (Lit 8213) (Lit 65293)) (Star (Alt (Lit 8213) (Lit 65293))))).
  rewrite m_Cat, (m_Star_single (@single_Lit ZSP)).
  change (fun x : char => x =? ZSP) with is_zsp.
  rewrite greedy_commit.
  - rewrite m_Cat, single_dash.
    destruct (dropwhile is_zsp row) as [|x s1]; [reflexivity|]. cbn [step1].
    destruct (is_dash x); [|reflexivity]. cbn [andb].
    rewrite (m_Star_single single_dash), greedy_commit.
    + destruct (dropwhile is_dash s1); reflexivity.
    + intros y t _. reflexivity.
  - intros x t Hx. rewrite m_Cat, single_dash. cbn [step1].
    unfold is_zsp in Hx. apply Z.eqb_eq in Hx. subst x. reflexivity.
Qed.

Lemma contains_app (c : char) (a b : str) :
  contains c (a ++ b) = contains c a || contains c b.
Proof. unfold contains. apply existsb_app. Qed.

Lemma contains_all (c : char) (p : char -> bool) (s : str) :
  p c = false -> forallb p s = true -> contains c s = false.
Proof.
  intros Hc. induction s as [|x s IH]; intros H; [reflexivity|].
  cbn [forallb] in H. apply andb_true_iff in H. destruct H as [Hx H].
  unfold contains. cbn [existsb]. fold (contains c s). rewrite (IH H).
  destruct (Z.eqb_spec c x) as [->|]; [congruence | reflexivity].
Qed.

Lemma dropwhile_nil_all (p : char -> bool) (s : str) :
  dropwhile p s = [] -> forallb p s = true.
Proof.
  induction s as [|x s IH]; [reflexivity|]. cbn [dropwhile forallb].
  destruct (p x); [exact IH | discriminate].
Qed.

Lemma rule_no_ban (row : str) :
  re_fullmatch Main.re_rule row = true -> contains BAN row = false.
Proof.
  rewrite re_fullmatch_rule_eq. rewrite <- (take_drop is_zsp row) at 2.
  rewrite contains_app.
  rewrite (@contains_all BAN is_zsp) by (reflexivity || apply takewhile_all).
  destruct (dropwhile is_zsp row) as [|x s1]; [discriminate|].
  intros H. apply andb_true_iff in H. destruct H as [Hx H].
  destruct (dropwhile is_dash s1) eqn:E; [|discriminate].
  apply dropwhile_nil_all in E.
  apply (@contains_all BAN is_dash); [reflexivity|].
  cbn [forallb]. rewrite Hx, E. reflexivity.
Qed.

Lemma terminal_no_ban (row : str) : terminal row = negb (contains BAN row).
Proof.
  unfold terminal. destruct (contains BAN row) eqn:E; [|reflexivity].
  cbn [negb orb]. destruct (re_fullmatch Main.re_rule row) eqn:Er;
    [|reflexivity].
  apply rule_no_ban in Er. congruence.
Qed.

Lemma contains_count (c : char) (s : str) :
  contains c s = negb (count c s =? 0)%nat.
Proof.
  unfold contains, count. induction s as [|x s IH]; [reflexivity|].
  cbn [existsb filter]. destruct (c =? x); [reflexivity | exact IH].
Qed.

Lemma slice_to_from (i : Z) (s : str) : slice_to i s ++ slice_from i s = s.
Proof. unfold slice_to, slice_from. apply firstn_skipn. Qed.

(** What the loop does with a row depends on the number of 番 in it alone
    (the rule test of line 60 never decides, see [rule_no_ban]): with none
    the loop ends; with one the row is the fragment; with two the row is
    cut in two fragments that together are the row; with three or more
    the count is written to the diagnostic channel, no fragment is added
    and the loop goes on. *)
Theorem rows_loop_by_count (row : str) (rows member_list : list str) :
  (count BAN row = 0%nat ->
   Main.rows_loop (row :: rows) member_list = ([], inr member_list)) /\
  (count BAN row = 1%nat ->
   Main.rows_loop (row :: rows) member_list
   = Main.rows_loop rows (member_list ++ [row])) /\
  (count BAN row = 2%nat ->
   exists a b, a ++ b = row /\
     Main.rows_loop (row :: rows) member_list
     = Main.rows_loop rows (member_list ++ [a; b])) /\
  ((3 <= count BAN row)%nat ->
   Main.rows_loop (row :: rows) member_list
   = (Main.unsupported_count (count BAN row)
        :: fst (Main.rows_loop rows member_list),
      snd (Main.rows_loop rows member_list))).
Proof.
  assert (Hc : forall n, count BAN row = S n ->
            (negb (contains BAN row) || re_fullmatch Main.re_rule row) = false).
  { intros n Hn. fold (terminal row).
    rewrite terminal_no_ban, contains_count, Hn. reflexivity. }
  repeat split.
  - intros H. cbn [Main.rows_loop]. rewrite contains_count, H. reflexivity.
  - intros H. cbn [Main.rows_loop]. rewrite (Hc _ H), H. reflexivity.
  - intros H. exists (slice_to (rfind BAN row - 2) row),
                      (slice_from (rfind BAN row - 2) row).
    split; [apply slice_to_from|].
    cbn [Main.rows_loop]. rewrite (Hc _ H), H. cbn [Nat.eqb].
    rewrite <- app_assoc. reflexivity.
  - intros H. cbn [Main.rows_loop].
    destruct (count BAN row) as [|[|[|n]]] eqn:E; try lia.
    rewrite (Hc _ eq_refl). cbn [Nat.eqb]. unfold write. cbn [bind].
    destruct (Main.rows_loop rows member_list) as [out r]. reflexivity.
Qed.

Lemma rows_loop_by_count_witness :
  exists a b, a ++ b = U "1番山田　12番鈴木" /\
    Main.rows_loop [U "1番山田　12番鈴木"] []
    = Main.rows_loop [] ([] ++ [a; b]).
Proof.
  apply (proj1 (proj2 (proj2 (@rows_loop_by_count (U "1番山田　12番鈴木") [] [])))).
  vm_compute. reflexivity.
Defined.

(** The rows that end the roster by the rule pattern: full-width spaces,
    then one or more dashes ― or －, and nothing else. *)
Theorem rule_shape (row : str) :
  re_fullmatch Main.re_rule row = true <->
  exists z d, row = z ++ d /\ forallb is_zsp z = true /\
              d <> [] /\ forallb is_dash d = true.
Proof.
  rewrite re_fullmatch_rule_eq. split.
  - intros H. exists (takewhile is_zsp row), (dropwhile is_zsp row).
    split; [symmetry; apply take_drop|]. split; [apply takewhile_all|].
    destruct (dropwhile is_zsp row) as [|x s1]; [discriminate|].
    split; [discriminate|].
    apply andb_true_iff in H. destruct H as [Hx H].
    destruct (dropwhile is_dash s1) eqn:E; [|discriminate].
    cbn [forallb]. rewrite Hx. apply dropwhile_nil_all. exact E.
  - intros (z & d & -> & Hz & Hd & Hall).
    destruct d as [|x d]; [congruence|].
    cbn [forallb] in Hall. apply andb_true_iff in Hall.
    destruct Hall as [Hx Hall].
    rewrite dropwhile_app by exact Hz. cbn [dropwhile].
    assert (Hzx : is_zsp x = false).
    { unfold is_zsp. destruct (Z.eqb_spec x ZSP) as [->|]; [|reflexivity].
      discriminate Hx. }
    rewrite Hzx, Hx. rewrite <- (app_nil_r d), dropwhile_app by exact Hall.
    reflexivity.
Qed.

Lemma rule_shape_witness :
  re_fullmatch Main.re_rule ([ZSP; ZSP] ++ U "―－―") = true.
Proof.
  apply (proj2 (rule_shape ([ZSP; ZSP] ++ U "―－―"))).
  exists [ZSP; ZSP], (U "―－―").
  repeat split; try (vm_compute; reflexivity). vm_compute. discriminate.
Defined.

(** Rows after the first row without 番 are never read. *)
Theorem rows_loop_after_stop (rows1 : list str) (row : str)
    (rows2 rows2' member_list : list str) :
  contains BAN row = false ->
  Main.rows_loop (rows1 ++ row :: rows2) member_list
  = Main.rows_loop (rows1 ++ row :: rows2') member_list.
Proof.
  intros H. assert (Ht : terminal row = true)
    by (rewrite terminal_no_ban, H; reflexivity).
  rewrite (@rows_loop_stop rows1 row rows2 Ht).
  rewrite (@rows_loop_stop rows1 row rows2' Ht). reflexivity.
Qed.

Lemma rows_loop_after_stop_witness :
  Main.rows_loop ([U "1番山田"] ++ U "○欠席議員" :: [U "2番鈴木"]) []
  = Main.rows_loop ([U "1番山田"] ++ U "○欠席議員" :: []) [].
Proof.
  apply (@rows_loop_after_stop [U "1番山田"] (U "○欠席議員")).
  vm_compute. reflexivity.
Defined.

(** ** [parse] *)

Lemma taken_rows_ban (rows : list str) (row : str) :
  In row (taken_rows rows) -> contains BAN row = true.
Proof.
  induction rows as [|r rows IH]; [contradiction|]. cbn [taken_rows].
  destruct (terminal r) eqn:E; [contradiction|].
  intros [<-|H]; [|exact (IH H)].
  rewrite terminal_no_ban in E. apply negb_false_iff in E. exact E.
Qed.

Lemma mapM_lift_output (A B : Type) (f : A -> exn + B) (l : list A) :
  fst (mapM (fun x => lift (f x)) l) = [].
Proof.
  destruct (mapM (fun x => lift (f x)) l) as [out [e|ys]] eqn:E.
  - apply mapM_lift_inl in E. destruct E as [-> _]. reflexivity.
  - apply mapM_lift_inr in E. destruct E as [-> _]. reflexivity.
Qed.

(** Whatever [parse] does, every line it writes to the diagnostic channel
    is the message of line 71 for a count of three or more. *)
Theorem parse_output (doc : str) :
  Forall (fun line => exists n, (3 <= n)%nat /\
                                line = Main.unsupported_count n)
         (fst (Main.parse doc)).
Proof.
  rewrite parse_eq.
  destruct (re_search Main.re_section (Main.reformat doc)) as [[st en]|];
    [|constructor].
  cbv zeta.
  pose proof (mapM_lift_output
    (fun member => Main.remove_number_honorific (Main.strip_spaces member))
    (section_fragments (slice_from st (Main.reformat doc)))) as Ho.
  destruct (mapM _ (section_fragments _)) as [out r]. cbn [fst] in *.
  subst out. rewrite app_nil_r. unfold section_output.
  apply Forall_forall. intros line Hin. apply in_flat_map in Hin.
  destruct Hin as (row & Hrow & Hline). apply taken_rows_ban in Hrow.
  rewrite contains_count in Hrow. unfold row_output in Hline.
  destruct (count BAN row) as [|[|[|n]]] eqn:E; try discriminate;
    cbn [Nat.eqb] in Hline; try contradiction.
  destruct Hline as [<-|[]]. exists (S (S (S n))). split; [lia | reflexivity].
Qed.

Lemma replace_single (c : char) (s : str) :
  replace [c] [] s = filter (fun x => negb (x =? c)) s.
Proof.
  unfold replace. induction s as [|x s IH]; [reflexivity|].
  rewrite replace_go_cons0, startswith_cons, startswith_nil, andb_true_r.
  cbn [filter length Nat.sub app]. destruct (x =? c); cbn [negb];
    rewrite IH; reflexivity.
Qed.

Lemma strip_spaces_filter (s : str) :
  Main.strip_spaces s = filter (fun x => negb (is_sp x)) s.
Proof.
  unfold Main.strip_spaces. rewrite !replace_single.
  induction s as [|x s IH]; [reflexivity|]. cbn [filter]. unfold is_sp.
  destruct (x =? ZSP); cbn [negb]; [rewrite orb_true_r; exact IH|].
  cbn [filter]. rewrite orb_false_r.
  destruct (x =? SP); cbn [negb]; rewrite IH; reflexivity.
Qed.

Lemma slice_to_incl (j : Z) (s : str) (c : char) :
  In c (slice_to j s) -> In c s.
Proof.
  intros H. rewrite <- (slice_to_from j s). apply in_or_app. left. exact H.
Qed.

(** The names that [parse] returns contain no space, ASCII or full-width,
    inner spaces included. *)
Theorem parse_name_no_space (doc : str) (out : list str)
    (members : list Main.member) :
  Main.parse doc = (out, inr members) ->
  Forall (fun r => forall c, In c (Main.name r) -> is_sp c = false) members.
Proof.
  rewrite parse_eq.
  destruct (re_search Main.re_section (Main.reformat doc)) as [[st en]|];
    [|discriminate].
  cbv zeta.
  destruct (mapM _ (section_fragments _)) as [out' r] eqn:E.
  intros H. injection H as _ ->.
  apply mapM_lift_inr in E. destruct E as [_ HF].
  induction HF as [|f r fs rs Hr _ IH]; constructor; [|exact IH].
  intros c Hc. apply remove_number_honorific_inr in Hr.
  destruct Hr as (pre & run & rest & Hf & _ & _ & _ & Hname).
  assert (Hrest : In c rest).
  { rewrite Hname in Hc.
    destruct (endswith rest Main.giin || endswith rest Main.san);
      [exact (slice_to_incl _ _ _ Hc)|].
    destruct (endswith rest Main.kun);
      [exact (slice_to_incl _ _ _ Hc) | exact Hc]. }
  assert (Hin : In c (Main.strip_spaces f)).
  { rewrite Hf. apply in_or_app. right. apply in_or_app. right.
    right. exact Hrest. }
  rewrite strip_spaces_filter in Hin. apply filter_In in Hin.
  destruct Hin as [_ Hin]. apply negb_true_iff in Hin. exact Hin.
Qed.

Lemma parse_name_no_space_witness :
  Forall (fun r => forall c, In c (Main.name r) -> is_sp c = false)
         [ {| Main.number := U "12"; Main.name := U "田中太郎" |} ].
Proof.
  apply (@parse_name_no_space
           (U "出席" ++ [LF] ++ U "12番 田中　太郎議員") []).
  vm_compute. reflexivity.
Defined.

Lemma dropwhile_suffix_in (p : char -> bool) (s : str) (c : char) (t : str) :
  dropwhile p s = c :: t -> In c s.
Proof.
  intros H. rewrite <- (take_drop p s), H. apply in_or_app. right. left.
  reflexivity.
Qed.

Lemma br_here_no_lt (s : str) : ~ In LT s -> br_here s = None.
Proof.
  intros H. unfold br_here.
  destruct (dropwhile is_sp s) as [|c s2] eqn:E; [reflexivity|].
  apply dropwhile_suffix_in in E.
  destruct (Z.eqb_spec c 60) as [->|]; [contradiction | reflexivity].
Qed.

Lemma strip_br_without_lt (s : str) : ~ In LT s -> strip_br s = s.
Proof.
  intros H. unfold strip_br. apply re_sub_no_match. intros pre suf E.
  rewrite match_here_br. apply br_here_no_lt. intros Hin. apply H.
  rewrite E. apply in_or_app. right. exact Hin.
Qed.

(** The format change of lines 50-52 leaves a text as it is when the text
    has no [<], no CR LF and no blank line. *)
Theorem reformat_fixed (s : str) :
  ~ In LT s -> infix s [CR; LF] = false -> infix s [LF; LF] = false ->
  Main.reformat s = s.
Proof.
  intros Hlt Hcr Hlf. unfold Main.reformat.
  change (re_sub Main.br_line_pattern [] s) with (strip_br s).
  rewrite strip_br_without_lt by exact Hlt.
  rewrite replace_empty_line_spec, (crlf_id _ Hcr).
  apply squeeze_id; [exact Hlf | discriminate].
Qed.

Lemma reformat_fixed_witness :
  Main.reformat (U "出席議員" ++ [LF] ++ U "1番 山田 花子") =
  U "出席議員" ++ [LF] ++ U "1番 山田 花子".
Proof.
  apply (@reformat_fixed (U "出席議員" ++ [LF] ++ U "1番 山田 花子")).
  - vm_compute. intuition discriminate.
  - vm_compute. reflexivity.
  - vm_compute. reflexivity.
Defined.

Lemma crlf_head (s : str) (y : char) :
  (y =? LF) = false ->
  startswith (crlf s) [y] = true -> startswith s [y] = true.
Proof.
  intros Hy. destruct s as [|c [|d s]]; [discriminate | exact (fun H => H) |].
  rewrite crlf_cons2. destruct ((c =? CR) && (d =? LF)).
  - rewrite startswith_cons, Z.eqb_sym, Hy. discriminate.
  - rewrite !startswith_cons, !startswith_nil. exact (fun H => H).
Qed.

Lemma crlf_no_new (x y : char) (s : str) :
  (x =? LF) = false -> (y =? LF) = false ->
  infix s [x; y] = false -> infix (crlf s) [x; y] = false.
Proof.
  intros Hx Hy. remember (length s) as n eqn:Hn.
  revert s Hn. induction n as [n IH] using lt_wf_ind. intros s Hn H.
  destruct s as [|c [|d s]]; [reflexivity | exact H |].
  rewrite infix_cons in H. apply orb_false_iff in H. destruct H as [H1 H2].
  rewrite crlf_cons2. destruct ((c =? CR) && (d =? LF)) eqn:E.
  - rewrite infix_cons, startswith_cons, Z.eqb_sym, Hx. cbn [andb orb].
    rewrite infix_cons in H2. apply orb_false_iff in H2.
    apply (IH (length s)); [subst n; simpl; lia | reflexivity | apply H2].
  - rewrite infix_cons. apply orb_false_iff. split.
    + rewrite startswith_cons in *.
      destruct (c =? x); [cbn [andb] in * | reflexivity].
      destruct (startswith (crlf (d :: s)) [y]) eqn:Eh; [|reflexivity].
      apply crlf_head in Eh; [|exact Hy]. congruence.
    + apply (IH (length (d :: s))); [subst n; simpl; lia | reflexivity
                                    | exact H2].
Qed.

Lemma squeeze_false_first (s : str) (y : char) :
  startswith (squeeze false s) [y] = startswith s [y].
Proof.
  destruct s as [|c s]; [reflexivity|]. cbn [squeeze].
  destruct (Z.eqb_spec c LF) as [->|]; rewrite !startswith_cons, !startswith_nil;
    reflexivity.
Qed.

Lemma squeeze_no_new (x y : char) (s : str) :
  (x =? LF) = false ->
  forall b, infix s [x; y] = false -> infix (squeeze b s) [x; y] = false.
Proof.
  intros Hx. induction s as [|c s IH]; intros b H; [reflexivity|].
  rewrite infix_cons in H. apply orb_false_iff in H. destruct H as [H1 H2].
  cbn [squeeze]. destruct (Z.eqb_spec c LF) as [->|Hc].
  - destruct b; [apply IH; exact H2|].
    rewrite infix_cons, startswith_cons, Z.eqb_sym, Hx. cbn [andb orb].
    apply IH. exact H2.
  - rewrite infix_cons. apply orb_false_iff. split; [|apply IH; exact H2].
    rewrite startswith_cons in *. rewrite squeeze_false_first. exact H1.
Qed.

(** A document that has neither 出席 nor [<] in it gives no roster:
    [parse] ends with the [AttributeError] of line 56. *)
Theorem parse_plain_document_fails (doc : str) :
  infix doc shusseki = false -> ~ In LT doc ->
  Main.parse doc = ([], inl AttributeError).
Proof.
  intros H Hlt.
  assert (Hs : re_search Main.re_section (Main.reformat doc) = None).
  { apply search_section_None. unfold Main.reformat.
    change (re_sub Main.br_line_pattern [] doc) with (strip_br doc).
    rewrite strip_br_without_lt by exact Hlt.
    rewrite replace_empty_line_spec.
    apply squeeze_no_new; [reflexivity|].
    apply crlf_no_new; [reflexivity | reflexivity | exact H]. }
  unfold Main.parse. rewrite Hs. reflexivity.
Qed.

Lemma parse_plain_document_fails_witness :
  Main.parse (U "出" ++ [LF; LF] ++ U "席" ++ [CR; LF] ++ U "1番山田")
  = ([], inl AttributeError).
Proof.
  apply (@parse_plain_document_fails
           (U "出" ++ [LF; LF] ++ U "席" ++ [CR; LF] ++ U "1番山田")).
  - vm_compute. reflexivity.
  - vm_compute. intuition discriminate.
Defined.

(** ** The leftmost match *)

Lemma search_from_leftmost (r : regex) (s : str) :
  forall i st en,
    search_from r i s = Some (st, en) ->
    forall pre suf, s = pre ++ suf -> i + Z.of_nat (length pre) < st ->
      match_here r suf = None.
Proof.
  induction s as [|c s IH]; intros i st en H pre suf E Hlt;
    rewrite search_from_eq in H.
  - destruct (match_here r []) eqn:Em; [|discriminate].
    injection H as <- _. lia.
  - destruct (match_here r (c :: s)) eqn:Em.
    + injection H as <- _. lia.
    + destruct pre as [|x pre]; cbn [app] in E.
      * subst suf. exact Em.
      * injection E as _ ->.
        apply (@IH (i + 1) st en H pre suf); [reflexivity|].
        cbn [length] in Hlt. lia.
Qed.

Lemma search_from_split (r : regex) (s : str) (st en : Z) :
  search_from r 0 s = Some (st, en) ->
  exists pre mid rest,
    s = pre ++ mid ++ rest /\
    st = Z.of_nat (length pre) /\
    en = st + Z.of_nat (length mid) /\
    match_here r (mid ++ rest) = Some rest /\
    (forall p q, pre = p ++ q -> q <> [] ->
       match_here r (q ++ mid ++ rest) = None).
Proof.
  intros H. pose proof (@search_from_leftmost r s 0 st en H) as Hl.
  apply search_from_Some in H.
  destruct H as (pre & mid & rest & -> & -> & -> & Hm).
  exists pre, mid, rest. repeat split; try assumption; try lia.
  intros p q -> Hq. apply (Hl p); [rewrite <- app_assoc; reflexivity|].
  rewrite length_app. destruct q; [congruence | cbn [length]; lia].
Qed.

(** ** [remove_number_honorific] *)

Lemma endswith_split (s p : str) :
  p <> [] -> endswith s p = true ->
  s = slice_to (- Z.of_nat (length p)) s ++ p /\ (length p <= length s)%nat.
Proof.
  unfold endswith. intros Hp0 H. apply andb_true_iff in H. destruct H as [Hl H].
  apply Nat.leb_le in Hl. apply str_eqb_eq in H. split; [|exact Hl].
  unfold slice_to, clamp.
  destruct (Z.ltb_spec (- Z.of_nat (length p)) 0) as [Hn|Hn].
  - replace (Z.to_nat (Z.max 0 (Z.of_nat (length s) + - Z.of_nat (length p))))
      with (length s - length p)%nat by lia.
    transitivity (firstn (length s - length p) s
                  ++ skipn (length s - length p) s);
      [symmetry; apply firstn_skipn | f_equal; exact H].
  - assert (Hp : length p = 0%nat) by lia.
    destruct p; [congruence | discriminate].
Qed.

(** The name is what follows the number marker, less one honorific at its
    end: 議員, さん or 君 when the text ends in one of them, nothing
    otherwise. *)
Theorem remove_number_honorific_name (f : str) (r : Main.member) :
  Main.remove_number_honorific f = inr r ->
  exists pre run suffix,
    f = pre ++ run ++ BAN :: Main.name r ++ suffix /\
    run <> [] /\ forallb is_numchar run = true /\
    In suffix [[]; Main.giin; Main.san; Main.kun] /\
    (suffix = [] ->
     endswith (Main.name r) Main.giin = false /\
     endswith (Main.name r) Main.san = false /\
     endswith (Main.name r) Main.kun = false).
Proof.
  intros H. apply remove_number_honorific_inr in H.
  destruct H as (pre & run & rest & -> & Hne & Hall & _ & Hname).
  exists pre, run.
  destruct (endswith rest Main.giin) eqn:E1.
  - exists Main.giin. apply endswith_split in E1; [|discriminate].
    destruct E1 as [E1 _].
    cbn [orb] in Hname. rewrite Hname.
    change (- Z.of_nat (length Main.giin)) with (-2) in E1. rewrite <- E1.
    repeat split; try assumption; try discriminate.
    right. left. reflexivity.
  - destruct (endswith rest Main.san) eqn:E2.
    + exists Main.san. apply endswith_split in E2; [|discriminate].
      destruct E2 as [E2 _].
      cbn [orb] in Hname. rewrite Hname.
      change (- Z.of_nat (length Main.san)) with (-2) in E2. rewrite <- E2.
      repeat split; try assumption; try discriminate.
      do 2 right. left. reflexivity.
    + cbn [orb] in Hname. destruct (endswith rest Main.kun) eqn:E3.
      * exists Main.kun. apply endswith_split in E3; [|discriminate].
        destruct E3 as [E3 _].
        rewrite Hname.
        change (- Z.of_nat (length Main.kun)) with (-1) in E3. rewrite <- E3.
        repeat split; try assumption; try discriminate.
        do 3 right. left. reflexivity.
      * exists []. rewrite Hname, app_nil_r.
        repeat split; try assumption. left. reflexivity.
Qed.

Lemma remove_number_honorific_name_witness :
  exists pre run suffix,
    U "第12番田中太郎議員" = pre ++ run ++ BAN :: U "田中太郎" ++ suffix /\
    run <> [] /\ forallb is_numchar run = true /\
    In suffix [[]; Main.giin; Main.san; Main.kun] /\
    (suffix = [] ->
     endswith (U "田中太郎") Main.giin = false /\
     endswith (U "田中太郎") Main.san = false /\
     endswith (U "田中太郎") Main.kun = false).
Proof.
  apply (@remove_number_honorific_name (U "第12番田中太郎議員")
           {| Main.number := U "12"; Main.name := U "田中太郎" |}).
  vm_compute. reflexivity.
Defined.

(** The number comes from the first number marker of the fragment and is
    its whole run: before the run there is no number marker, and the
    character directly before the run is not of the class. *)
Theorem remove_number_honorific_first (f : str) (r : Main.member) :
  Main.remove_number_honorific f = inr r ->
  exists pre run rest,
    f = pre ++ run ++ BAN :: rest /\
    Main.number r = Main.zen_to_han run /\
    run <> [] /\ forallb is_numchar run = true /\
    ~ number_marker pre /\ is_numchar (last pre 0) = false.
Proof.
  unfold Main.remove_number_honorific, re_search.
  destruct (search_from Main.re_number 0 f) as [[st en]|] eqn:E;
    [|discriminate].
  apply search_from_split in E.
  destruct E as (pre & mid & rest & -> & -> & -> & Hm & Hl).
  apply match_here_number_Some in Hm.
  destruct Hm as (run & Hrun & Hne & Hall).
  assert (Hmid : mid = run ++ [BAN]).
  { apply (app_inv_tail rest). rewrite Hrun, <- app_assoc. reflexivity. }
  subst mid. intros H. injection H as <-.
  assert (Hnone : forall p q, pre = p ++ q -> q <> [] ->
            match_here Main.re_number (q ++ run ++ BAN :: rest) = None).
  { intros p q Hp Hq. specialize (Hl p q Hp Hq).
    rewrite <- app_assoc in Hl. exact Hl. }
  exists pre, run, rest. repeat split; try assumption.
  - rewrite <- !app_assoc. reflexivity.
  - cbn [Main.number]. f_equal. rewrite <- !app_assoc. cbn [app].
    replace (Z.of_nat (length pre) + Z.of_nat (length (run ++ [BAN])) - 1)
      with (Z.of_nat (length pre + length run))
      by (rewrite length_app; simpl; lia).
    apply slice_app.
  - intros (p & d & post & Hp & Hd).
    specialize (Hnone p (d :: BAN :: post) Hp ltac:(discriminate)).
    cbn [app] in Hnone. rewrite match_here_number_marker in Hnone by exact Hd.
    discriminate.
  - destruct (rev pre) as [|d p] eqn:Ep.
    + apply (f_equal (@rev char)) in Ep. rewrite rev_involutive in Ep.
      subst pre. reflexivity.
    + apply (f_equal (@rev char)) in Ep. rewrite rev_involutive in Ep.
      cbn [rev] in Ep. rewrite Ep, last_last.
      destruct (is_numchar d) eqn:Ed; [|reflexivity].
      specialize (Hnone (rev p) [d] Ep ltac:(discriminate)).
      cbn [app] in Hnone.
      rewrite match_here_number, Ed, dropwhile_app in Hnone by exact Hall.
      cbn [dropwhile] in Hnone. rewrite BAN_not_numchar in Hnone.
      change (BAN =? BAN) with true in Hnone. discriminate.
Qed.

Lemma remove_number_honorific_first_witness :
  exists pre run rest,
    U "第12番山田3番" = pre ++ run ++ BAN :: rest /\
    U "12" = Main.zen_to_han run /\
    run <> [] /\ forallb is_numchar run = true /\
    ~ number_marker pre /\ is_numchar (last pre 0) = false.
Proof.
  apply (@remove_number_honorific_first (U "第12番山田3番")
           {| Main.number := U "12"; Main.name := U "山田3番" |}).
  vm_compute. reflexivity.
Defined.

(** ** The section header and the cut of a two-marker row *)

Lemma startswith_app (a b p : str) :
  startswith a p = true -> startswith (a ++ b) p = true.
Proof.
  revert a. induction p as [|c p IH]; intros a H.
  - apply startswith_nil.
  - destruct a as [|x a]; [discriminate|]. cbn [app].
    rewrite startswith_cons in *. apply andb_true_iff in H.
    destruct H as [Hx H]. rewrite Hx, (IH _ H). reflexivity.
Qed.

(** The text that [parse] reads rows from starts at the first 出席 of the
    reformatted document. *)
Theorem section_first (s : str) (st en : Z) :
  re_search Main.re_section s = Some (st, en) ->
  exists pre rest,
    s = pre ++ shusseki ++ rest /\
    slice_from st s = shusseki ++ rest /\
    infix (pre ++ [20986]) shusseki = false.
Proof.
  unfold re_search. intros H. apply search_from_split in H.
  destruct H as (pre & mid & rest & -> & -> & _ & Hm & Hl).
  rewrite match_here_section in Hm.
  destruct (startswith (mid ++ rest) shusseki) eqn:Es; [|discriminate].
  pose proof (startswith_true _ _ Es) as Hs.
  exists pre, (skipn (length shusseki) (mid ++ rest)).
  rewrite <- Hs. split; [reflexivity|]. split; [apply slice_from_app|].
  apply infix_false. intros p suf E.
  destruct suf as [|z suf]; [reflexivity|].
  destruct (@exists_last _ (z :: suf)) as (q & c & Hq); [discriminate|].
  rewrite Hq in *. rewrite app_assoc in E. apply app_inj_tail in E.
  destruct E as [Hpre <-].
  destruct q as [|y q]; [reflexivity|].
  specialize (Hl p (y :: q) Hpre ltac:(discriminate)).
  rewrite match_here_section in Hl.
  destruct (startswith ((y :: q) ++ mid ++ rest) shusseki) eqn:E1;
    [discriminate|].
  destruct (startswith ((y :: q) ++ [20986]) shusseki) eqn:E2; [|exact E2].
  exfalso.
  apply (startswith_app _ (skipn 1 (mid ++ rest))) in E2.
  rewrite <- app_assoc in E2. rewrite Hs in E1.
  cbn [app] in E1, E2. unfold shusseki in E1 at 1. cbn [app skipn length] in *.
  rewrite Hs in E2. unfold shusseki in E2 at 1. cbn [app skipn] in E2.
  congruence.
Qed.

Lemma section_first_witness :
  exists pre rest,
    U "欠席議員なし○出席議員" = pre ++ shusseki ++ rest /\
    slice_from 7 (U "欠席議員なし○出席議員") = shusseki ++ rest /\
    infix (pre ++ [20986]) shusseki = false.
Proof.
  apply (@section_first (U "欠席議員なし○出席議員") 7 11).
  vm_compute. reflexivity.
Defined.

Lemma rfind_none (c : char) (s : str) : ~ In c s -> rfind c s = -1.
Proof.
  induction s as [|x s IH]; intros H; [reflexivity|]. cbn [rfind].
  rewrite IH by (intros Hin; apply H; right; exact Hin). cbn.
  destruct (Z.eqb_spec x c) as [->|]; [|reflexivity].
  exfalso. apply H. left. reflexivity.
Qed.

Lemma rfind_app_last (c : char) (l tail : str) :
  ~ In c tail -> rfind c (l ++ c :: tail) = Z.of_nat (length l).
Proof.
  intros H. induction l as [|x l IH].
  - cbn [app rfind]. rewrite rfind_none by exact H.
    rewrite Z.eqb_refl. reflexivity.
  - cbn [app rfind]. rewrite IH.
    destruct (Z.leb_spec 0 (Z.of_nat (length l))) as [_|Hn]; [|lia].
    cbn [length]. lia.
Qed.

Lemma slice_to_app (a b : str) : slice_to (Z.of_nat (length a)) (a ++ b) = a.
Proof.
  unfold slice_to. rewrite clamp_of_nat by (rewrite length_app; lia).
  rewrite firstn_app, firstn_all, Nat.sub_diag. cbn [firstn].
  apply app_nil_r.
Qed.

(** A row with two 番 is cut two characters before the second 番: the
    right fragment keeps at most two characters of the second number. *)
Theorem rows_loop_two_cut (a : str) (x y : char) (tail : str)
    (rows member_list : list str) :
  count BAN (a ++ x :: y :: BAN :: tail) = 2%nat -> ~ In BAN tail ->
  Main.rows_loop ((a ++ x :: y :: BAN :: tail) :: rows) member_list
  = Main.rows_loop rows (member_list ++ [a; x :: y :: BAN :: tail]).
Proof.
  intros Hc Ht. cbn [Main.rows_loop]. fold (terminal (a ++ x :: y :: BAN :: tail)).
  rewrite terminal_no_ban, contains_count, Hc. cbn [Nat.eqb negb].
  assert (Hp : rfind BAN (a ++ x :: y :: BAN :: tail) - 2
               = Z.of_nat (length a)).
  { change (a ++ x :: y :: BAN :: tail) with (a ++ [x; y] ++ BAN :: tail).
    rewrite app_assoc, (@rfind_app_last BAN _ tail Ht), length_app. cbn [length]. lia. }
  rewrite Hp, slice_to_app, slice_from_app, <- app_assoc. reflexivity.
Qed.

Lemma rows_loop_two_cut_witness :
  Main.rows_loop ((U "1番山田　1" ++ 48 :: 48 :: BAN :: U "鈴木") :: []) []
  = Main.rows_loop [] ([] ++ [U "1番山田　1"; 48 :: 48 :: BAN :: U "鈴木"]).
Proof.
  apply (@rows_loop_two_cut (U "1番山田　1") 48 48 (U "鈴木") [] []).
  - vm_compute. reflexivity.
  - vm_compute. intuition discriminate.
Defined.

(** ** The header line *)

Lemma search_from_at (r : regex) (suf rest : str) (pre : str) :
  match_here r suf = Some rest ->
  (forall p q, pre = p ++ q -> q <> [] -> match_here r (q ++ suf) = None) ->
  forall i,
    search_from r i (pre ++ suf) =
    Some (i + Z.of_nat (length pre),
          i + Z.of_nat (length pre) + Z.of_nat (length suf - length rest)).
Proof.
  intros Hm. induction pre as [|x pre IH]; intros Hn i.
  - cbn [app length]. erewrite search_from_head by exact Hm.
    f_equal. f_equal; lia.
  - cbn [app]. rewrite search_from_eq.
    pose proof (Hn [] (x :: pre) eq_refl ltac:(discriminate)) as H0.
    cbn [app] in H0. rewrite H0, IH.
    + cbn [length]. f_equal. f_equal; lia.
    + intros p q Hp Hq. apply (Hn (x :: p)); [rewrite Hp; reflexivity | exact Hq].
Qed.

Lemma startswith_app_long (p a b : str) :
  (length p <= length a)%nat -> startswith (a ++ b) p = startswith a p.
Proof.
  revert a. induction p as [|c p IH]; intros a H.
  - rewrite !startswith_nil. reflexivity.
  - destruct a as [|x a]; [simpl in H; lia|]. cbn [app].
    rewrite !startswith_cons, IH by (simpl in H; lia). reflexivity.
Qed.

Lemma startswith_self (p b : str) : startswith (p ++ b) p = true.
Proof.
  induction p as [|c p IH]; [apply startswith_nil|].
  cbn [app]. rewrite startswith_cons, Z.eqb_refl, IH. reflexivity.
Qed.

Lemma split_no_sep (c : char) (a : str) : ~ In c a -> split c a = [a].
Proof.
  induction a as [|x a IH]; intros H; [reflexivity|]. cbn [split].
  destruct (Z.eqb_spec x c) as [->|]; [exfalso; apply H; left; reflexivity|].
  rewrite IH by (intros Hin; apply H; right; exact Hin). reflexivity.
Qed.

(** For a document that the format change leaves as it is, [parse] reads
    its rows after the line of the first 出席: the text before the header
    and the rest of the header line do not matter. *)
Theorem parse_header_ignored (pre h rest : str) :
  Main.reformat (pre ++ shusseki ++ h ++ LF :: rest)
  = pre ++ shusseki ++ h ++ LF :: rest ->
  infix (pre ++ [20986]) shusseki = false -> ~ In LF h ->
  Main.parse (pre ++ shusseki ++ h ++ LF :: rest) =
  bind (Main.rows_loop (split LF rest) [])
       (mapM (fun member =>
                lift (Main.remove_number_honorific (Main.strip_spaces member)))).
Proof.
  intros Hfix Hfirst Hh. unfold Main.parse. rewrite Hfix. unfold re_search.
  assert (Hm : match_here Main.re_section (shusseki ++ h ++ LF :: rest)
               = Some (LF :: rest)).
  { rewrite match_here_section, startswith_self.
    change (skipn 2 (shusseki ++ h ++ LF :: rest)) with (h ++ LF :: rest).
    f_equal. clear Hfix. induction h as [|x h IH]; [reflexivity|].
    cbn [app dropwhile]. destruct (Z.eqb_spec x LF) as [->|].
    - exfalso. apply Hh. left. reflexivity.
    - cbn [negb]. apply IH. intros Hin. apply Hh. right. exact Hin. }
  erewrite search_from_at; [| exact Hm |].
  - replace (0 + Z.of_nat (length pre)) with (Z.of_nat (length pre)) by lia.
    rewrite slice_from_app.
    change (shusseki ++ h ++ LF :: rest)
      with (20986 :: 24109 :: h ++ LF :: rest).
    change (20986 :: 24109 :: h ++ LF :: rest)
      with ((20986 :: 24109 :: h) ++ LF :: rest).
    rewrite split_app, split_no_sep; [reflexivity|].
    intros [E|[E|E]]; [discriminate E | discriminate E | exact (Hh E)].
  - intros p q Hp Hq. rewrite match_here_section.
    assert (Hq' : startswith (q ++ [20986]) shusseki = false).
    { apply (proj1 (infix_false _ _) Hfirst p).
      rewrite Hp, <- app_assoc. reflexivity. }
    assert (E : startswith (q ++ shusseki ++ h ++ LF :: rest) shusseki
                = startswith (q ++ [20986]) shusseki).
    { change (q ++ shusseki ++ h ++ LF :: rest)
        with (q ++ [20986] ++ 24109 :: h ++ LF :: rest).
      rewrite app_assoc. apply startswith_app_long.
      rewrite length_app. destruct q; [congruence | simpl; lia]. }
    rewrite E, Hq'. reflexivity.
Qed.

Lemma parse_header_ignored_witness :
  Main.parse (U "○" ++ shusseki ++ U "議員 3番" ++ LF :: U "1番山田") =
  bind (Main.rows_loop (split LF (U "1番山田")) [])
       (mapM (fun member =>
                lift (Main.remove_number_honorific (Main.strip_spaces member)))).
Proof.
  apply (@parse_header_ignored (U "○") (U "議員 3番") (U "1番山田")).
  - vm_compute. reflexivity.
  - vm_compute. reflexivity.
  - vm_compute. intuition discriminate.
Defined.

(** ** The fields of a record *)

Lemma remove_number_honorific_parts (f : str) (r : Main.member) :
  Main.remove_number_honorific f = inr r ->
  exists pre run rest,
    f = pre ++ run ++ BAN :: rest /\
    run <> [] /\ forallb is_numchar run = true /\
    ~ number_marker pre /\ is_numchar (last pre 0) = false /\
    Main.number r = Main.zen_to_han run /\
    Main.name r =
      if endswith rest Main.giin || endswith rest Main.san
      then slice_to (-2) rest
      else if endswith rest Main.kun then slice_to (-1) rest else rest.
Proof.
  unfold Main.remove_number_honorific, re_search.
  destruct (search_from Main.re_number 0 f) as [[st en]|] eqn:E;
    [|discriminate].
  apply search_from_split in E.
  destruct E as (pre & mid & rest & -> & -> & -> & Hm & Hl).
  apply match_here_number_Some in Hm.
  destruct Hm as (run & Hrun & Hne & Hall).
  assert (Hmid : mid = run ++ [BAN]).
  { apply (app_inv_tail rest). rewrite Hrun, <- app_assoc. reflexivity. }
  subst mid. intros H. injection H as <-.
  assert (Hnone : forall p q, pre = p ++ q -> q <> [] ->
            match_here Main.re_number (q ++ run ++ BAN :: rest) = None).
  { intros p q Hp Hq. specialize (Hl p q Hp Hq).
    rewrite <- app_assoc in Hl. exact Hl. }
  exists pre, run, rest. repeat split; try assumption.
  - rewrite <- !app_assoc. reflexivity.
  - intros (p & d & post & Hp & Hd).
    specialize (Hnone p (d :: BAN :: post) Hp ltac:(discriminate)).
    cbn [app] in Hnone. rewrite match_here_number_marker in Hnone by exact Hd.
    discriminate.
  - destruct (rev pre) as [|d p] eqn:Ep.
    + apply (f_equal (@rev char)) in Ep. rewrite rev_involutive in Ep.
      subst pre. reflexivity.
    + apply (f_equal (@rev char)) in Ep. rewrite rev_involutive in Ep.
      cbn [rev] in Ep. rewrite Ep, last_last.
      destruct (is_numchar d) eqn:Ed; [|reflexivity].
      specialize (Hnone (rev p) [d] Ep ltac:(discriminate)).
      cbn [app] in Hnone.
      rewrite match_here_number, Ed, dropwhile_app in Hnone by exact Hall.
      cbn [dropwhile] in Hnone. rewrite BAN_not_numchar in Hnone.
      change (BAN =? BAN) with true in Hnone. discriminate.
  - cbn [Main.number]. f_equal. rewrite <- !app_assoc. cbn [app].
    replace (Z.of_nat (length pre) + Z.of_nat (length (run ++ [BAN])) - 1)
      with (Z.of_nat (length pre + length run))
      by (rewrite length_app; simpl; lia).
    apply slice_app.
  - cbn [Main.name].
    replace (Z.of_nat (length pre) + Z.of_nat (length (run ++ [BAN])))
      with (Z.of_nat (length (pre ++ (run ++ [BAN]))))
      by (rewrite (length_app pre); lia).
    rewrite (app_assoc pre (run ++ [BAN]) rest), slice_from_app. reflexivity.
Qed.

Lemma honorific_name_empty (rest : str) :
  (if endswith rest Main.giin || endswith rest Main.san
   then slice_to (-2) rest
   else if endswith rest Main.kun then slice_to (-1) rest else rest) = []
  <-> In rest [[]; Main.giin; Main.san; Main.kun].
Proof.
  split.
  - destruct (endswith rest Main.giin) eqn:E1; cbn [orb].
    + apply endswith_split in E1; [|discriminate]. destruct E1 as [E1 _].
      change (- Z.of_nat (length Main.giin)) with (-2) in E1.
      intros H. rewrite H in E1. right. left. symmetry. exact E1.
    + destruct (endswith rest Main.san) eqn:E2.
      * apply endswith_split in E2; [|discriminate]. destruct E2 as [E2 _].
        change (- Z.of_nat (length Main.san)) with (-2) in E2.
        intros H. rewrite H in E2. do 2 right. left. symmetry. exact E2.
      * destruct (endswith rest Main.kun) eqn:E3.
        -- apply endswith_split in E3; [|discriminate]. destruct E3 as [E3 _].
           change (- Z.of_nat (length Main.kun)) with (-1) in E3.
           intros H. rewrite H in E3. do 3 right. left. symmetry. exact E3.
        -- intros ->. left. reflexivity.
  - intros [<-|[<-|[<-|[<-|[]]]]]; vm_compute; reflexivity.
Qed.

(** C2, amended: every record that [parse] returns has a non-empty number
    field, and its name field is empty exactly when, in the fragment the
    record comes from (spaces removed), nothing or only one of the
    honorifics 議員, さん, 君 follows the first number marker. *)
Theorem parse_record_fields (doc : str) (out : list str)
    (members : list Main.member) :
  Main.parse doc = (out, inr members) ->
  exists st en,
    re_search Main.re_section (Main.reformat doc) = Some (st, en) /\
    Forall2
      (fun fragment r =>
         Main.number r <> [] /\
         exists pre run rest,
           Main.strip_spaces fragment = pre ++ run ++ BAN :: rest /\
           run <> [] /\ forallb is_numchar run = true /\
           ~ number_marker pre /\ is_numchar (last pre 0) = false /\
           (Main.name r = [] <->
            In rest [[]; Main.giin; Main.san; Main.kun]))
      (section_fragments (slice_from st (Main.reformat doc))) members.
Proof.
  rewrite parse_eq.
  destruct (re_search Main.re_section (Main.reformat doc)) as [[st en]|];
    [|discriminate].
  cbv zeta.
  destruct (mapM _ (section_fragments _)) as [out' r] eqn:E.
  intros H. injection H as _ ->.
  exists st, en. split; [reflexivity|].
  apply mapM_lift_inr in E. destruct E as [_ HF].
  induction HF as [|f r fs rs Hr _ IH]; constructor; [|exact IH].
  apply remove_number_honorific_parts in Hr.
  destruct Hr as (pre & run & rest & Hf & Hne & Hall & Hm & Hl & Hnum & Hname).
  split.
  - rewrite Hnum. destruct run; [congruence | discriminate].
  - exists pre, run, rest. repeat split; try assumption.
    + rewrite Hname. apply honorific_name_empty.
    + rewrite Hname. apply honorific_name_empty.
Qed.

Lemma parse_record_fields_witness :
  exists st en,
    re_search Main.re_section
      (Main.reformat (U "出席" ++ [LF] ++ U "第 12番 さん")) = Some (st, en) /\
    Forall2
      (fun fragment r =>
         Main.number r <> [] /\
         exists pre run rest,
           Main.strip_spaces fragment = pre ++ run ++ BAN :: rest /\
           run <> [] /\ forallb is_numchar run = true /\
           ~ number_marker pre /\ is_numchar (last pre 0) = false /\
           (Main.name r = [] <->
            In rest [[]; Main.giin; Main.san; Main.kun]))
      (section_fragments
         (slice_from st (Main.reformat (U "出席" ++ [LF] ++ U "第 12番 さん"))))
      [ {| Main.number := U "12"; Main.name := [] |} ].
Proof.
  apply (@parse_record_fields (U "出席" ++ [LF] ++ U "第 12番 さん") []).
  vm_compute. reflexivity.
Defined.

(** ** A marker after any text *)

Lemma dropwhile_dropwhile_app (p : char -> bool) (u t : str) :
  dropwhile p (dropwhile p u ++ t) = dropwhile p (u ++ t).
Proof.
  induction u as [|x u IH]; [reflexivity|].
  cbn [app dropwhile]. destruct (p x) eqn:E; [exact IH|].
  cbn [app dropwhile]. rewrite E. reflexivity.
Qed.

Lemma dropwhile_head (p : char -> bool) (s : str) (x : char) (t : str) :
  dropwhile p s = x :: t -> p x = false.
Proof.
  induction s as [|y s IH]; [discriminate|]. cbn [dropwhile].
  destruct (p y) eqn:E; [exact IH|].
  intros H. injection H as <- _. exact E.
Qed.

Lemma dropwhile_in (p : char -> bool) (s : str) (x : char) :
  In x (dropwhile p s) -> In x s.
Proof.
  intros H. rewrite <- (take_drop p s). apply in_or_app. right. exact H.
Qed.

Lemma last_suffix (mid r : str) :
  r <> [] -> last (mid ++ r) 0 = last r 0.
Proof.
  intros Hr. induction mid as [|x mid IH]; [reflexivity|].
  cbn [app]. destruct (mid ++ r) eqn:E.
  - destruct mid; [cbn [app] in E; congruence | discriminate].
  - cbn [last]. exact IH.
Qed.

(** What follows a text that a marker is appended to: spaces, then [<].
    None of the four spellings can be completed by it. *)
Lemma guard_head (sp1 t : str) (c : char) (q : str) :
  forallb is_sp sp1 = true -> is_sp c = false -> c <> LT ->
  startswith (sp1 ++ LT :: t) (c :: q) = false.
Proof.
  intros Hsp Hc Hlt. destruct sp1 as [|x sp1]; cbn [app];
    rewrite startswith_cons.
  - destruct (Z.eqb_spec LT c) as [E|_]; [congruence | reflexivity].
  - cbn [forallb] in Hsp. apply andb_true_iff in Hsp. destruct Hsp as [Hx _].
    destruct (Z.eqb_spec x c) as [E|_]; [congruence | reflexivity].
Qed.

Lemma guard_space (sp1 t : str) (c : char) (q : str) :
  forallb is_sp sp1 = true -> is_sp c = false -> c <> LT ->
  startswith (sp1 ++ LT :: t) (SP :: c :: q) = false.
Proof.
  intros Hsp Hc Hlt. destruct sp1 as [|x sp1]; cbn [app];
    rewrite startswith_cons.
  - reflexivity.
  - cbn [forallb] in Hsp. apply andb_true_iff in Hsp. destruct Hsp as [_ Hsp].
    rewrite guard_head by assumption. apply andb_false_r.
Qed.

Lemma guard_tags (sp1 t w : str) (k : nat) :
  forallb is_sp sp1 = true -> In w br_tags -> (k < length w)%nat ->
  startswith (sp1 ++ LT :: t) (skipn k w) = false.
Proof.
  intros Hsp Hw Hk. unfold br_tags in Hw. cbn [In] in Hw.
  destruct Hw as [<-|[<-|[<-|[<-|[]]]]];
    do 4 (try (destruct k as [|k]));
    cbn [length] in Hk; try lia; cbn [skipn];
    first [ apply guard_head; [exact Hsp | reflexivity | discriminate]
          | apply guard_space; [exact Hsp | reflexivity | discriminate] ].
Qed.

Lemma startswith_app_guard (t p : str) :
  (forall k, (k < length p)%nat -> startswith t (skipn k p) = false) ->
  forall s, startswith (s ++ t) p = startswith s p.
Proof.
  induction p as [|c p IH]; intros H s.
  - rewrite !startswith_nil. reflexivity.
  - destruct s as [|x s]; cbn [app].
    + specialize (H 0%nat ltac:(cbn [length]; lia)). cbn [skipn] in H.
      rewrite H. reflexivity.
    + rewrite !startswith_cons, IH; [reflexivity|].
      intros k Hk. apply (H (S k)). cbn [length]. lia.
Qed.

Lemma br_close_guard (sp1 t : str) :
  forallb is_sp sp1 = true -> br_close (sp1 ++ LT :: t) = None.
Proof.
  intros Hsp. destruct sp1 as [|x sp1]; [reflexivity|].
  cbn [app br_close]. cbn [forallb] in Hsp. apply andb_true_iff in Hsp.
  destruct Hsp as [Hx _].
  destruct (Z.eqb_spec x 62) as [->|]; [discriminate | reflexivity].
Qed.

Lemma br_try_guard (sp1 t w s : str) :
  forallb is_sp sp1 = true -> In w br_tags ->
  br_try w (s ++ sp1 ++ LT :: t) = run_on (sp1 ++ LT :: t) (br_try w s).
Proof.
  intros Hsp Hw. unfold br_try.
  rewrite startswith_app_guard
    by (intros k Hk; apply guard_tags; assumption).
  destruct (startswith s w) eqn:E; [|reflexivity].
  apply startswith_true in E. rewrite E at 1.
  rewrite <- app_assoc, skipn_app, skipn_all, Nat.sub_diag.
  cbn [app skipn].
  destruct (skipn (length w) s) as [|x u].
  - cbn [app br_close run_on]. apply br_close_guard. exact Hsp.
  - cbn [app br_close]. destruct (x =? 62); [|reflexivity].
    cbn [run_on]. rewrite dropwhile_dropwhile_app. reflexivity.
Qed.

Lemma br_tag_guard (sp1 t : str) (ws : list str) (s : str) :
  forallb is_sp sp1 = true -> (forall w, In w ws -> In w br_tags) ->
  br_tag ws (s ++ sp1 ++ LT :: t) = run_on (sp1 ++ LT :: t) (br_tag ws s).
Proof.
  intros Hsp. induction ws as [|w ws IH]; intros Hws; [reflexivity|].
  cbn [br_tag]. rewrite br_try_guard
    by first [exact Hsp | apply Hws; left; reflexivity].
  destruct (br_try w s); [reflexivity|].
  apply IH. intros w' Hin. apply Hws. right. exact Hin.
Qed.

Lemma dropwhile_app_last (s t : str) :
  s <> [] -> is_sp (last s 0) = false ->
  exists y u, dropwhile is_sp s = y :: u /\
              dropwhile is_sp (s ++ t) = y :: u ++ t.
Proof.
  induction s as [|x s IH]; intros Hne Hl; [congruence|].
  cbn [app dropwhile]. destruct (is_sp x) eqn:Ex.
  - destruct s as [|x' s].
    + cbn [last] in Hl. congruence.
    + apply IH; [discriminate | exact Hl].
  - exists x, s. split; reflexivity.
Qed.

Lemma br_here_guard (sp1 t s : str) :
  forallb is_sp sp1 = true -> s <> [] -> is_sp (last s 0) = false ->
  br_here (s ++ sp1 ++ LT :: t) = run_on (sp1 ++ LT :: t) (br_here s).
Proof.
  intros Hsp Hne Hl. unfold br_here.
  destruct (@dropwhile_app_last s (sp1 ++ LT :: t) Hne Hl)
    as (y & u & -> & ->).
  destruct (y =? 60); [|reflexivity].
  apply br_tag_guard; [exact Hsp | intros w H; exact H].
Qed.

Lemma br_here_rest (s r : str) (x : char) (u : str) :
  br_here s = Some r -> r = x :: u -> is_sp x = false.
Proof.
  unfold br_here. intros H Hr.
  destruct (dropwhile is_sp s) as [|c s2]; [discriminate|].
  destruct (c =? 60); [|discriminate].
  apply br_tag_Some in H. destruct H as (w & t & _ & _ & H).
  rewrite Hr in H. symmetry in H. apply dropwhile_head in H. exact H.
Qed.

(** A marker after a text that does not end in a space. *)
Lemma strip_br_marker (w b : str) :
  In w br_tags ->
  forall a sp1 : str,
    is_sp (last a 0) = false -> forallb is_sp sp1 = true ->
    strip_br (a ++ sp1 ++ LT :: w ++ GT :: b) =
    strip_br a ++ strip_br (dropwhile is_sp b).
Proof.
  intros Hw a. remember (length a) as n eqn:Hn. revert a Hn.
  induction n as [n IH] using lt_wf_ind. intros a Hn sp1 Hl Hsp. subst n.
  destruct a as [|c a].
  - transitivity ([] ++ strip_br (dropwhile is_sp b)); [|reflexivity].
    apply (@strip_br_found [] sp1 w b Hw); [intros [] | exact Hl | exact Hsp].
  - pose proof (@br_here_guard sp1 (w ++ GT :: b) (c :: a) Hsp
                  ltac:(discriminate) Hl) as Hg.
    destruct (br_here (c :: a)) as [r|] eqn:Eh; cbn [run_on] in Hg.
    + assert (Hlen : (length r < length (c :: a))%nat)
        by (apply br_here_shorter; exact Eh).
      pose proof Eh as Hmid. rewrite <- match_here_br in Hmid.
      apply match_here_suffix in Hmid. destruct Hmid as (mid & Hmid).
      unfold strip_br at 2.
      rewrite (@re_sub_Some _ [] (c :: a) r)
        by first [rewrite match_here_br; exact Eh | exact Hlen].
      cbn [app]. fold (strip_br r).
      unfold strip_br at 1.
      change (c :: a ++ sp1 ++ LT :: w ++ GT :: b)
        with ((c :: a) ++ sp1 ++ LT :: w ++ GT :: b).
      transitivity
        ([] ++ strip_br (dropwhile is_sp (r ++ sp1 ++ LT :: w ++ GT :: b))).
      { apply re_sub_Some;
          [rewrite match_here_br; exact Hg | apply br_here_shorter; exact Hg]. }
      cbn [app].
      destruct r as [|x u].
      * cbn [app]. rewrite dropwhile_app by exact Hsp. cbn [dropwhile].
        change (is_sp LT) with false. cbn iota.
        transitivity ([] ++ strip_br (dropwhile is_sp b)); [|reflexivity].
        apply (@strip_br_found [] [] w b Hw); [intros [] | reflexivity..].
      * assert (Hx : is_sp x = false)
          by (apply (@br_here_rest (c :: a) (x :: u) x u Eh); reflexivity).
        assert (Hd : dropwhile is_sp ((x :: u) ++ sp1 ++ LT :: w ++ GT :: b) =
                     (x :: u) ++ sp1 ++ LT :: w ++ GT :: b).
        { cbn [app dropwhile]. rewrite Hx. reflexivity. }
        rewrite Hd. apply (IH (length (x :: u))).
        -- exact Hlen.
        -- reflexivity.
        -- rewrite Hmid in Hl. rewrite last_suffix in Hl; [exact Hl|].
           discriminate.
        -- exact Hsp.
    + unfold strip_br at 1 2.
      cbn [app]. rewrite !re_sub_cons_None.
      * cbn [app]. f_equal. apply (IH (length a)).
        -- cbn [length]. lia.
        -- reflexivity.
        -- destruct a as [|y a]; [reflexivity | exact Hl].
        -- exact Hsp.
      * rewrite match_here_br. exact Eh.
      * rewrite match_here_br. exact Hg.
Qed.

Lemma rstrip_spaces_split (x : str) :
  exists sp1,
    x = rstrip_spaces x ++ sp1 /\ forallb is_sp sp1 = true /\
    is_sp (last (rstrip_spaces x) 0) = false.
Proof.
  unfold rstrip_spaces. exists (rev (takewhile is_sp (rev x))).
  repeat split.
  - rewrite <- rev_app_distr, take_drop, rev_involutive. reflexivity.
  - apply forallb_forall. intros y Hy. apply in_rev in Hy.
    pose proof (takewhile_all is_sp (rev x)) as H.
    rewrite forallb_forall in H. apply H. exact Hy.
  - destruct (dropwhile is_sp (rev x)) as [|y u] eqn:E; [reflexivity|].
    cbn [rev]. rewrite last_last. apply dropwhile_head in E. exact E.
Qed.

(** A marker in one of the four spellings is removed wherever it stands,
    with the spaces on both sides of it: the result is what the removal
    gives on the text before the marker, its spaces at the end left out,
    followed by what it gives on the text after the marker, its spaces at
    the start left out.  A text before the marker that has no [<] is
    kept as it is, up to those spaces. *)
Theorem strip_br_anywhere (x w b : str) :
  In w br_tags ->
  strip_br (x ++ LT :: w ++ GT :: b) =
    strip_br (rstrip_spaces x) ++ strip_br (dropwhile is_sp b) /\
  (~ In LT x -> strip_br (rstrip_spaces x) = rstrip_spaces x).
Proof.
  intros Hw. split.
  - destruct (rstrip_spaces_split x) as (sp1 & Hx & Hsp & Hl).
    rewrite Hx at 1. rewrite <- app_assoc.
    apply strip_br_marker; assumption.
  - intros Hlt. apply strip_br_without_lt. intros Hin. apply Hlt.
    unfold rstrip_spaces in Hin. apply in_rev in Hin.
    apply dropwhile_in in Hin. apply in_rev in Hin. exact Hin.
Qed.

Lemma strip_br_anywhere_witness :
  strip_br (U "<b>1番 <BR>山田 　" ++ LT :: U "br /" ++ GT :: U " 2番鈴木") =
    strip_br (rstrip_spaces (U "<b>1番 <BR>山田 　")) ++
    strip_br (dropwhile is_sp (U " 2番鈴木")) /\
  (~ In LT (U "<b>1番 <BR>山田 　") ->
   strip_br (rstrip_spaces (U "<b>1番 <BR>山田 　")) =
   rstrip_spaces (U "<b>1番 <BR>山田 　")).
Proof.
  apply (@strip_br_anywhere (U "<b>1番 <BR>山田 　") (U "br /") (U " 2番鈴木")).
  vm_compute. do 2 right. left. reflexivity.
Defined.
